(** * Salsa mixer

    A shallow embedding of the browser script of alienpoodle/salsa-mixer,
    which exists in two near-duplicate variants:

    - [MixerJs]  : src/mixer.js
    - [Part000]  : src/unnamed/part_000 (adds a modal message box, awaits
                   the audio context in [togglePlayPause] and guards the
                   start of a player by its mute flag).

    The script keeps three JavaScript objects used as maps ([players],
    [instrumentButtons], [instrumentStates]), two counters and a handful of
    DOM elements, and drives an external audio engine (Tone.js).  The
    embedding threads one explicit [State] through every function.  The
    calls that start or pause the engine ([Tone.start], [Transport.start],
    [Transport.pause], [player.start], [player.pause]) and the console lines
    are recorded, in order, in the [trace] field; creating and wiring audio
    nodes ([new Tone.Volume], [new Tone.Player], [connect], [new Tone.Loop])
    leaves no entry there.

    What the engine and the page do is not part of the repository; the
    embedding fixes it as follows, the way the script itself relies on it:
    - a player handle carries [isPlaying]; [start()] sets it, [pause()]
      clears it;
    - creating a player and awaiting [player.loaded] either succeeds or
      throws, as decided by the environment ([loads]);
    - [Transport.start()] / [Transport.pause()] set [Transport.state] to
      ['started'] / ['paused'];
    - the page holds no element of class ['beat-indicator'] and no element
      with an id [beat-N] other than those the script creates;
    - a handler runs to completion before the next event is handled.
      [window.onload] itself yields while the audio loads: [onload] and
      [reachable] describe the page when no event is handled meanwhile,
      [onload_during] and [reachable_during], further down, the page
      whatever is clicked meanwhile. *)

From Stdlib Require Import ZArith List String Ascii Bool Lia QArith DecimalString.
From Stdlib Require Import DecimalPos DecimalZ.
Import ListNotations.
Local Open Scope string_scope.
Local Open Scope Z_scope.
Local Open Scope list_scope.

(** ** JavaScript objects used as maps

    Property order of an object with non-numeric string keys is insertion
    order, and [Object.values] walks the properties in that order; an
    association list keeps it.  A lookup finds own properties: the names
    every object inherits from [Object.prototype] (['toString'],
    ['constructor'], ...; [Object_prototype_names] below) are outside the
    model.  The script looks up instrument names and [player.name]. *)

Module Obj.
Section WithValue.
Context {V : Type}.

Definition t := list (string * V).

Definition empty : t := [].

(** [o[k]]: [None] is [undefined]. *)
Fixpoint get (o : t) (k : string) : option V :=
  match o with
  | [] => None
  | (k', v) :: r => if String.eqb k' k then Some v else get r k
  end.

(** [o[k] = v]: overwrite in place, or append a new property. *)
Fixpoint set (o : t) (k : string) (v : V) : t :=
  match o with
  | [] => [(k, v)]
  | (k', v') :: r =>
      if String.eqb k' k then (k', v) :: r else (k', v') :: set r k v
  end.

Definition keys (o : t) : list string := map fst o.
Definition values (o : t) : list V := map snd o.
End WithValue.
Arguments t : clear implicits.
End Obj.

(** Truthiness of [o[k]] when the values are booleans: [undefined] is falsy. *)
Definition truthy (x : option bool) : bool :=
  match x with
  | Some b => b
  | None => false
  end.

(** ** DOM token lists ([element.classList]) *)

Definition classList_contains (c : list string) (tok : string) : bool :=
  existsb (String.eqb tok) c.

Definition classList_add1 (c : list string) (tok : string) : list string :=
  if classList_contains c tok then c else c ++ [tok].

(** [classList.add(t1, ..., tn)] *)
Definition classList_add (c : list string) (toks : list string) : list string :=
  fold_left classList_add1 toks c.

(** [classList.remove(tok)] *)
Definition classList_remove (c : list string) (tok : string) : list string :=
  filter (fun t => negb (String.eqb t tok)) c.

(** ** Strings *)

(** [`${n}`] for an integer [n]. *)
Definition string_of_Z (n : Z) : string := NilZero.string_of_int (Z.to_int n).

Definition lower_ascii (a : ascii) : ascii :=
  let n := nat_of_ascii a in
  if ((65 <=? n)%nat && (n <=? 90)%nat)%bool then ascii_of_nat (n + 32) else a.

(** [s.toLowerCase()] on ASCII text. *)
Fixpoint toLowerCase (s : string) : string :=
  match s with
  | EmptyString => EmptyString
  | String a r => String (lower_ascii a) (toLowerCase r)
  end.

(** ** Data *)

Inductive Variant := MixerJs | Part000.

Record Instrument := {
  name : string;
  url : string;
  triggerBeats : option (list Q)   (* absent in part_000 *)
}.

(** [player.volume.value], in decibels. *)
Inductive Decibels :=
| dB (z : Z)
| NegInfinity.

Record Player := {
  player_name : string;      (* [player.name]: given by the engine, never set by the script *)
  player_url : string;
  loop : bool;
  autostart : bool;
  volume : Decibels;
  isPlaying : bool
}.

Record Button := {
  id : string;
  textContent : string;
  classList : list string;
  disabled : bool;
  dataset_instrument : string
}.

Record Span := {
  span_id : string;
  span_textContent : string;
  span_classList : list string
}.

Inductive TransportState := started | stopped | paused.

Record Transport := {
  state : TransportState;
  bpm : Z;
  transport_loop : bool;
  loopEnd : string
}.

Record MessageBox := {
  messageText : string;             (* messageText.textContent *)
  messageBox_classList : list string (* messageBox.classList *)
}.

Inductive Effect :=
| console_log (msg : string)
| console_error (msg : string)
| Tone_start
| Transport_start
| Transport_pause
| player_start (key : string)   (* [start()] on the player stored under [key] *)
| player_pause (key : string).  (* [pause()] on the player stored under [key] *)

(** The page and the engine the script runs against. *)
Record Env := {
  loads : string -> bool;             (* does the audio at this url load? *)
  engine_player_name : string;        (* the [name] property of a fresh player *)
  volumeSlider_value : string;        (* volumeSlider.value *)
  context_running_at_load : bool;     (* Tone.context.state === 'running' *)
  playPauseText_at_load : string;     (* text of #play-pause-text in the page *)
  messageBox_class : list string      (* class attribute of #message-box *)
}.

Record State := {
  players : Obj.t Player;
  instrumentButtons : Obj.t Button;
  instrumentStates : Obj.t bool;
  currentBeat : Z;
  beatCounter : Z;                    (* the [let beatCounter] captured by the loop callback *)
  transport : Transport;              (* Tone.Transport *)
  context_running : bool;             (* Tone.context.state === 'running' *)
  masterVolume : option string;       (* masterVolume.volume.value, as the slider string *)
  beatDisplay : list Span;            (* children of #beat-display *)
  playPauseText : string;             (* playPauseText.textContent *)
  messageBox : MessageBox;
  trace : list Effect
}.

(** *** Field updates *)

Definition set_volume (x : Decibels) (p : Player) : Player :=
  {| player_name := player_name p; player_url := player_url p; loop := loop p;
     autostart := autostart p; volume := x; isPlaying := isPlaying p |}.

Definition set_isPlaying (x : bool) (p : Player) : Player :=
  {| player_name := player_name p; player_url := player_url p; loop := loop p;
     autostart := autostart p; volume := volume p; isPlaying := x |}.

Definition set_classList (x : list string) (b : Button) : Button :=
  {| id := id b; textContent := textContent b; classList := x;
     disabled := disabled b; dataset_instrument := dataset_instrument b |}.

Definition set_disabled (x : bool) (b : Button) : Button :=
  {| id := id b; textContent := textContent b; classList := classList b;
     disabled := x; dataset_instrument := dataset_instrument b |}.

Definition set_span_classList (x : list string) (e : Span) : Span :=
  {| span_id := span_id e; span_textContent := span_textContent e;
     span_classList := x |}.

Definition set_state (x : TransportState) (t : Transport) : Transport :=
  {| state := x; bpm := bpm t; transport_loop := transport_loop t;
     loopEnd := loopEnd t |}.

Definition set_players (x : Obj.t Player) (s : State) : State :=
  {| players := x; instrumentButtons := instrumentButtons s;
     instrumentStates := instrumentStates s; currentBeat := currentBeat s;
     beatCounter := beatCounter s; transport := transport s;
     context_running := context_running s; masterVolume := masterVolume s;
     beatDisplay := beatDisplay s; playPauseText := playPauseText s;
     messageBox := messageBox s; trace := trace s |}.

Definition set_instrumentButtons (x : Obj.t Button) (s : State) : State :=
  {| players := players s; instrumentButtons := x;
     instrumentStates := instrumentStates s; currentBeat := currentBeat s;
     beatCounter := beatCounter s; transport := transport s;
     context_running := context_running s; masterVolume := masterVolume s;
     beatDisplay := beatDisplay s; playPauseText := playPauseText s;
     messageBox := messageBox s; trace := trace s |}.

Definition set_instrumentStates (x : Obj.t bool) (s : State) : State :=
  {| players := players s; instrumentButtons := instrumentButtons s;
     instrumentStates := x; currentBeat := currentBeat s;
     beatCounter := beatCounter s; transport := transport s;
     context_running := context_running s; masterVolume := masterVolume s;
     beatDisplay := beatDisplay s; playPauseText := playPauseText s;
     messageBox := messageBox s; trace := trace s |}.

Definition set_currentBeat (x : Z) (s : State) : State :=
  {| players := players s; instrumentButtons := instrumentButtons s;
     instrumentStates := instrumentStates s; currentBeat := x;
     beatCounter := beatCounter s; transport := transport s;
     context_running := context_running s; masterVolume := masterVolume s;
     beatDisplay := beatDisplay s; playPauseText := playPauseText s;
     messageBox := messageBox s; trace := trace s |}.

Definition set_beatCounter (x : Z) (s : State) : State :=
  {| players := players s; instrumentButtons := instrumentButtons s;
     instrumentStates := instrumentStates s; currentBeat := currentBeat s;
     beatCounter := x; transport := transport s;
     context_running := context_running s; masterVolume := masterVolume s;
     beatDisplay := beatDisplay s; playPauseText := playPauseText s;
     messageBox := messageBox s; trace := trace s |}.

Definition set_transport (x : Transport) (s : State) : State :=
  {| players := players s; instrumentButtons := instrumentButtons s;
     instrumentStates := instrumentStates s; currentBeat := currentBeat s;
     beatCounter := beatCounter s; transport := x;
     context_running := context_running s; masterVolume := masterVolume s;
     beatDisplay := beatDisplay s; playPauseText := playPauseText s;
     messageBox := messageBox s; trace := trace s |}.

Definition set_context_running (x : bool) (s : State) : State :=
  {| players := players s; instrumentButtons := instrumentButtons s;
     instrumentStates := instrumentStates s; currentBeat := currentBeat s;
     beatCounter := beatCounter s; transport := transport s;
     context_running := x; masterVolume := masterVolume s;
     beatDisplay := beatDisplay s; playPauseText := playPauseText s;
     messageBox := messageBox s; trace := trace s |}.

Definition set_masterVolume (x : option string) (s : State) : State :=
  {| players := players s; instrumentButtons := instrumentButtons s;
     instrumentStates := instrumentStates s; currentBeat := currentBeat s;
     beatCounter := beatCounter s; transport := transport s;
     context_running := context_running s; masterVolume := x;
     beatDisplay := beatDisplay s; playPauseText := playPauseText s;
     messageBox := messageBox s; trace := trace s |}.

Definition set_beatDisplay (x : list Span) (s : State) : State :=
  {| players := players s; instrumentButtons := instrumentButtons s;
     instrumentStates := instrumentStates s; currentBeat := currentBeat s;
     beatCounter := beatCounter s; transport := transport s;
     context_running := context_running s; masterVolume := masterVolume s;
     beatDisplay := x; playPauseText := playPauseText s;
     messageBox := messageBox s; trace := trace s |}.

Definition set_playPauseText (x : string) (s : State) : State :=
  {| players := players s; instrumentButtons := instrumentButtons s;
     instrumentStates := instrumentStates s; currentBeat := currentBeat s;
     beatCounter := beatCounter s; transport := transport s;
     context_running := context_running s; masterVolume := masterVolume s;
     beatDisplay := beatDisplay s; playPauseText := x;
     messageBox := messageBox s; trace := trace s |}.

Definition set_messageBox (x : MessageBox) (s : State) : State :=
  {| players := players s; instrumentButtons := instrumentButtons s;
     instrumentStates := instrumentStates s; currentBeat := currentBeat s;
     beatCounter := beatCounter s; transport := transport s;
     context_running := context_running s; masterVolume := masterVolume s;
     beatDisplay := beatDisplay s; playPauseText := playPauseText s;
     messageBox := x; trace := trace s |}.

(** Record one call to the engine or to the console. *)
Definition emit (e : Effect) (s : State) : State :=
  {| players := players s; instrumentButtons := instrumentButtons s;
     instrumentStates := instrumentStates s; currentBeat := currentBeat s;
     beatCounter := beatCounter s; transport := transport s;
     context_running := context_running s; masterVolume := masterVolume s;
     beatDisplay := beatDisplay s; playPauseText := playPauseText s;
     messageBox := messageBox s; trace := trace s ++ [e] |}.

(** ** The script *)

Definition instruments (v : Variant) : list Instrument :=
  match v with
  | MixerJs =>
      [ {| name := "Clave"; url := "clave.wav";
           triggerBeats := Some [1; 3; 5; 7]%Q |};
        {| name := "Conga"; url := "conga.wav";
           triggerBeats := Some [1; 5 # 2; 4; 11 # 2; 7]%Q |};
        {| name := "Bass"; url := "bass.wav";
           triggerBeats := Some [1; 3; 5; 7]%Q |};
        {| name := "Piano"; url := "piano.wav";
           triggerBeats := Some [2; 4; 6; 8]%Q |};
        {| name := "Maracas"; url := "maracas.wav";
           triggerBeats := Some [1; 2; 3; 4; 5; 6; 7; 8]%Q |};
        {| name := "Guiro"; url := "guiro.wav";
           triggerBeats := Some [3 # 2; 7 # 2; 11 # 2; 15 # 2]%Q |};
        {| name := "Trumpet"; url := "trumpet.wav";
           triggerBeats := Some [1; 5]%Q |};
        {| name := "Trombone"; url := "trombone.wav";
           triggerBeats := Some [3; 7]%Q |};
        {| name := "Vocals"; url := "vocals.wav";
           triggerBeats := Some [1]%Q |} ]
  | Part000 =>
      [ {| name := "Clave"; url := "clave.wav"; triggerBeats := None |};
        {| name := "Conga"; url := "conga.wav"; triggerBeats := None |};
        {| name := "Bass"; url := "bass.wav"; triggerBeats := None |};
        {| name := "Piano"; url := "piano.wav"; triggerBeats := None |};
        {| name := "Maracas"; url := "maracas.wav"; triggerBeats := None |};
        {| name := "Guiro"; url := "guiro.wav"; triggerBeats := None |};
        {| name := "Trumpet"; url := "trumpet.wav"; triggerBeats := None |};
        {| name := "Trombone"; url := "trombone.wav"; triggerBeats := None |};
        {| name := "Vocals"; url := "vocals.wav"; triggerBeats := None |} ]
  end.

Definition totalBeats : Z := 8.

(** The globals as the script declares them, before [window.onload] runs.
    The transport starts with the engine's defaults. *)
Definition initial_state (env : Env) : State :=
  {| players := Obj.empty;
     instrumentButtons := Obj.empty;
     instrumentStates := Obj.empty;
     currentBeat := 0;
     beatCounter := 0;
     transport := {| state := stopped; bpm := 120; transport_loop := false;
                     loopEnd := "4m" |};
     context_running := context_running_at_load env;
     masterVolume := None;
     beatDisplay := [];
     playPauseText := playPauseText_at_load env;
     messageBox := {| messageText := "";
                      messageBox_classList := messageBox_class env |};
     trace := [] |}.

(** [showMessageBox] (part_000 only) *)
Definition showMessageBox (message : string) (s : State) : State :=
  set_messageBox
    {| messageText := message;
       messageBox_classList :=
         classList_remove (messageBox_classList (messageBox s)) "hidden" |} s.

(** [hideMessageBox] (part_000 only) *)
Definition hideMessageBox (s : State) : State :=
  set_messageBox
    {| messageText := messageText (messageBox s);
       messageBox_classList :=
         classList_add (messageBox_classList (messageBox s)) ["hidden"] |} s.

(** [new Tone.Player({url, loop: true, autostart: false, volume: 0})] *)
Definition Tone_Player (env : Env) (u : string) : Player :=
  {| player_name := engine_player_name env; player_url := u; loop := true;
     autostart := false; volume := dB 0; isPlaying := false |}.

(** [updateBeatDisplay]: the first element whose id is [i] gets 'current'. *)
Fixpoint add_current (i : string) (l : list Span) : list Span :=
  match l with
  | [] => []
  | e :: r =>
      if String.eqb (span_id e) i
      then set_span_classList (classList_add (span_classList e) ["current"]) e :: r
      else e :: add_current i r
  end.

Definition clear_current (e : Span) : Span :=
  if classList_contains (span_classList e) "beat-indicator"
  then set_span_classList (classList_remove (span_classList e) "current") e
  else e.

Definition updateBeatDisplay (beat : Z) (s : State) : State :=
  let s := set_beatDisplay (map clear_current (beatDisplay s)) s in
  set_beatDisplay
    (add_current ("beat-" ++ string_of_Z beat)%string (beatDisplay s)) s.

(** The callback given to [new Tone.Loop(..., "8n")]. *)
Definition beatLoop (s : State) : State :=
  let s := set_currentBeat (Z.rem (beatCounter s) totalBeats + 1) s in
  let s := updateBeatDisplay (currentBeat s) s in
  set_beatCounter (Z.rem (beatCounter s + 1) totalBeats) s.

(** The [catch] block on the button of the instrument that failed:
    [disabled = true; classList.remove('active');
     classList.add('opacity-50', 'cursor-not-allowed')]. *)
Definition button_after_load_error (button : Button) : Button :=
  let button := set_disabled true button in
  let button :=
    set_classList (classList_remove (classList button) "active") button in
  set_classList
    (classList_add (classList button) ["opacity-50"; "cursor-not-allowed"])
    button.

(** One turn of the [for ... of instruments] loop of [initializeAudio]:
    the [try] body when the audio loads, the [catch] body when it does not. *)
Definition initializeAudio_body (v : Variant) (env : Env)
    (instrument : Instrument) (s : State) : State :=
  if loads env (url instrument) then
    let player := Tone_Player env (url instrument) in
    let s := set_players (Obj.set (players s) (name instrument) player) s in
    let s := set_instrumentStates
               (Obj.set (instrumentStates s) (name instrument) true) s in
    emit (console_log
            ("Loaded " ++ name instrument ++ " from " ++ url instrument)%string) s
  else
    let s := emit (console_error
                     ("Error loading " ++ name instrument ++ " from "
                        ++ url instrument ++ ":")%string) s in
    let s := match v with
             | MixerJs => s
             | Part000 =>
                 showMessageBox
                   ("Failed to load audio for " ++ name instrument
                      ++ ". Please ensure '" ++ url instrument
                      ++ "' is in the correct folder and accessible.")%string s
             end in
    let s := set_instrumentStates
               (Obj.set (instrumentStates s) (name instrument) false) s in
    match Obj.get (instrumentButtons s) (name instrument) with
    | Some button =>
        set_instrumentButtons
          (Obj.set (instrumentButtons s) (name instrument)
             (button_after_load_error button)) s
    | None => s
    end.

Definition initializeAudio (v : Variant) (env : Env) (s : State) : State :=
  let s := set_masterVolume (Some (volumeSlider_value env)) s in
  let s := fold_left (fun s instrument => initializeAudio_body v env instrument s)
             (instruments v) s in
  let s := set_masterVolume (Some (volumeSlider_value env)) s in
  let s := set_transport
             {| state := state (transport s); bpm := 180; transport_loop := true;
                loopEnd := "2m" |} s in
  set_beatCounter 0 s.

(** The button [createInstrumentButtons] builds for one instrument. *)
Definition new_button (instrument : Instrument) : Button :=
  {| id := ("btn-" ++ toLowerCase (name instrument))%string;
     textContent := name instrument;
     classList :=
       classList_add []
         [ "instrument-button";
           "px-6"; "py-3"; "rounded-xl"; "text-lg"; "font-semibold";
           "shadow-md"; "hover:shadow-lg"; "focus:outline-none";
           "focus:ring-2"; "focus:ring-blue-300";
           "active" ];
     disabled := false;
     dataset_instrument := name instrument |}.

Definition createInstrumentButtons_body (instrument : Instrument) (s : State)
  : State :=
  set_instrumentButtons
    (Obj.set (instrumentButtons s) (name instrument) (new_button instrument)) s.

Definition createInstrumentButtons (v : Variant) (s : State) : State :=
  fold_left (fun s instrument => createInstrumentButtons_body instrument s)
    (instruments v) s.

(** The span [createBeatIndicators] builds for beat [i]. *)
Definition beatSpan (i : Z) : Span :=
  {| span_id := ("beat-" ++ string_of_Z i)%string;
     span_textContent := string_of_Z i;
     span_classList := classList_add [] ["beat-indicator"] |}.

Definition createBeatIndicators_body (i : Z) (s : State) : State :=
  set_beatDisplay (beatDisplay s ++ [beatSpan i]) s.

(** [for (let i = 1; i <= totalBeats; i++)] *)
Definition createBeatIndicators (s : State) : State :=
  fold_left (fun s i => createBeatIndicators_body i s)
    (map Z.of_nat (seq 1 (Z.to_nat totalBeats))) s.

(** [toggleInstrument]; [None] is the TypeError of [button.disabled] on an
    undefined button. *)
Definition toggleInstrument (instrumentName : string) (s : State)
  : option State :=
  match Obj.get (players s) instrumentName with
  | None => Some s
  | Some player =>
      match Obj.get (instrumentButtons s) instrumentName with
      | None => None
      | Some button =>
          if disabled button then Some s
          else
            let s := set_instrumentStates
                       (Obj.set (instrumentStates s) instrumentName
                          (negb (truthy (Obj.get (instrumentStates s)
                                           instrumentName)))) s in
            if truthy (Obj.get (instrumentStates s) instrumentName) then
              let s := set_players
                         (Obj.set (players s) instrumentName
                            (set_volume (dB 0) player)) s in
              Some (set_instrumentButtons
                      (Obj.set (instrumentButtons s) instrumentName
                         (set_classList
                            (classList_add (classList button) ["active"])
                            button)) s)
            else
              let s := set_players
                         (Obj.set (players s) instrumentName
                            (set_volume NegInfinity player)) s in
              Some (set_instrumentButtons
                      (Obj.set (instrumentButtons s) instrumentName
                         (set_classList
                            (classList_remove (classList button) "active")
                            button)) s)
      end
  end.

(** [Object.values(players).forEach(f)]: [f] updates the player it visits
    and may call the engine; the key only labels those calls. *)
Fixpoint forEach_values (f : string -> Player -> Player * list Effect)
    (o : Obj.t Player) : Obj.t Player * list Effect :=
  match o with
  | [] => ([], [])
  | (k, p) :: r =>
      let (p', es) := f k p in
      let (r', es') := forEach_values f r in
      ((k, p') :: r', es ++ es')
  end.

Definition emit_all (es : list Effect) (s : State) : State :=
  fold_left (fun s e => emit e s) es s.

(** [if (player.isPlaying) player.pause()] *)
Definition pause_if_playing (k : string) (player : Player)
  : Player * list Effect :=
  if isPlaying player then (set_isPlaying false player, [player_pause k])
  else (player, []).

(** mixer.js: [if (!player.isPlaying) player.start()] *)
Definition start_if_not_playing (k : string) (player : Player)
  : Player * list Effect :=
  if negb (isPlaying player) then (set_isPlaying true player, [player_start k])
  else (player, []).

(** part_000:
    [if (!player.isPlaying && instrumentStates[player.name]) player.start()] *)
Definition start_if_not_playing_and_active (states : Obj.t bool) (k : string)
    (player : Player) : Player * list Effect :=
  if (negb (isPlaying player)
      && truthy (Obj.get states (player_name player)))%bool
  then (set_isPlaying true player, [player_start k])
  else (player, []).

Definition togglePlayPause (v : Variant) (s : State) : State :=
  match state (transport s) with
  | started =>
      let s := emit Transport_pause
                 (set_transport (set_state paused (transport s)) s) in
      let s := set_playPauseText "Play" s in
      let (ps, es) := forEach_values pause_if_playing (players s) in
      emit_all es (set_players ps s)
  | _ =>
      let s := match v with
               | MixerJs => s
               | Part000 =>
                   if negb (context_running s) then
                     emit (console_log "AudioContext resumed from togglePlayPause")
                       (set_context_running true (emit Tone_start s))
                   else s
               end in
      let s := emit Transport_start
                 (set_transport (set_state started (transport s)) s) in
      let s := set_playPauseText "Pause" s in
      let (ps, es) :=
        forEach_values
          match v with
          | MixerJs => start_if_not_playing
          | Part000 => start_if_not_playing_and_active (instrumentStates s)
          end (players s) in
      emit_all es (set_players ps s)
  end.

(** The [else] branch of [window.onload] on the button:
    [classList.remove('active'); disabled = true;
     classList.add('opacity-50', 'cursor-not-allowed')]. *)
Definition button_when_not_loaded (button : Button) : Button :=
  let button :=
    set_classList (classList_remove (classList button) "active") button in
  let button := set_disabled true button in
  set_classList
    (classList_add (classList button) ["opacity-50"; "cursor-not-allowed"])
    button.

(** One turn of the [instruments.forEach] of [window.onload]. *)
Definition onload_body (instrument : Instrument) (s : State) : State :=
  match Obj.get (instrumentButtons s) (name instrument) with
  | None => s
  | Some button =>
      if truthy (Obj.get (instrumentStates s) (name instrument)) then
        let s := set_instrumentButtons
                   (Obj.set (instrumentButtons s) (name instrument)
                      (set_classList
                         (classList_add (classList button) ["active"]) button))
                   s in
        match Obj.get (players s) (name instrument) with
        | Some player =>
            set_players
              (Obj.set (players s) (name instrument) (set_volume (dB 0) player)) s
        | None => s
        end
      else
        let s := set_instrumentButtons
                   (Obj.set (instrumentButtons s) (name instrument)
                      (button_when_not_loaded button)) s in
        match Obj.get (players s) (name instrument) with
        | Some player =>
            set_players
              (Obj.set (players s) (name instrument)
                 (set_volume NegInfinity player)) s
        | None => s
        end
  end.

(** [window.onload], from the globals as declared, when no event is
    handled while the audio loads. *)
Definition onload (v : Variant) (env : Env) : State :=
  let s := createInstrumentButtons v (initial_state env) in
  let s := createBeatIndicators s in
  let s := initializeAudio v env s in
  let s := fold_left (fun s instrument => onload_body instrument s)
             (instruments v) s in
  updateBeatDisplay 1 s.

(** ** Events after initialization

    The handlers the script registers, and the engine's loop callback.  The
    engine decides when the callback fires and the browser which clicks are
    delivered; the embedding lets every event happen at any time, which
    covers all the runs the page can have. *)

Inductive Event :=
| click_instrument (instrumentName : string)  (* a button of #instrument-controls *)
| click_playPause                              (* #play-pause-btn *)
| beat_tick                                    (* the loop callback fires *)
| slider_input (value : string)                (* 'input' on #volume-slider *)
| mousedown                                    (* on document.documentElement *)
| click_messageOk.                             (* #message-box-ok-btn *)

Definition on_mousedown (v : Variant) (s : State) : State :=
  if negb (context_running s) then
    emit (console_log
            match v with
            | MixerJs => "AudioContext started"
            | Part000 => "AudioContext started via document mousedown"
            end)
      (set_context_running true (emit Tone_start s))
  else s.

Definition step (v : Variant) (s : State) (e : Event) : State :=
  match e with
  | click_instrument n =>
      match toggleInstrument n s with
      | Some s' => s'
      | None => s      (* the handler threw before writing anything *)
      end
  | click_playPause => togglePlayPause v s
  | beat_tick => beatLoop s
  | slider_input x => set_masterVolume (Some x) s
  | mousedown => on_mousedown v s
  | click_messageOk =>
      match v with
      | MixerJs => s  (* no such handler *)
      | Part000 => hideMessageBox s
      end
  end.

Definition run (v : Variant) (s : State) (es : list Event) : State :=
  fold_left (step v) es s.

(** The states the page can be in once [window.onload] has completed, when
    no event was handled while the audio loaded. *)
Definition reachable (v : Variant) (env : Env) (s : State) : Prop :=
  exists es, s = run v (onload v env) es.

(** The engine calls and console lines that [togglePlayPause] adds. *)
Definition calls_of_togglePlayPause (v : Variant) (s : State) : list Effect :=
  skipn (List.length (trace s)) (trace (togglePlayPause v s)).

(** What the script holds about one instrument name. *)
Definition view (s : State) (n : string)
  : option Player * option Button * option bool :=
  (Obj.get (players s) n, Obj.get (instrumentButtons s) n,
   Obj.get (instrumentStates s) n).

Definition has_active (b : Button) : bool :=
  classList_contains (classList b) "active".

Definition has_current (e : Span) : bool :=
  classList_contains (span_classList e) "current".

(** The volume the script gives a player for a mute flag. *)
Definition volume_for (st : bool) : Decibels :=
  if st then dB 0 else NegInfinity.

(** Mute flag, player volume and 'active' class agree, on an enabled button. *)
Definition consistent (x : option Player * option Button * option bool) : Prop :=
  match x with
  | (Some p, Some b, Some st) =>
      disabled b = false /\ volume p = volume_for st /\ has_active b = st
  | (Some _, _, _) => False
  | (None, _, _) => True
  end.


(** *** What each loop over [instruments] does to the entries of the
    instrument it visits *)

Definition created_view (i : Instrument)
    (x : option Player * option Button * option bool)
  : option Player * option Button * option bool :=
  let '(p, b, st) := x in (p, Some (new_button i), st).

Definition loaded_view (env : Env) (i : Instrument)
    (x : option Player * option Button * option bool)
  : option Player * option Button * option bool :=
  let '(p, b, st) := x in
  if loads env (url i)
  then (Some (Tone_Player env (url i)), b, Some true)
  else (p, option_map button_after_load_error b, Some false).

Definition onload_view (i : Instrument)
    (x : option Player * option Button * option bool)
  : option Player * option Button * option bool :=
  let '(p, b, st) := x in
  match b with
  | None => x
  | Some button =>
      if truthy st
      then (option_map (set_volume (dB 0)) p,
            Some (set_classList (classList_add (classList button) ["active"])
                    button),
            st)
      else (option_map (set_volume NegInfinity) p,
            Some (button_when_not_loaded button), st)
  end.

(** The text of the modal for a failed load (part_000). *)
Definition failure_message (i : Instrument) : string :=
  ("Failed to load audio for " ++ name i ++ ". Please ensure '" ++ url i
     ++ "' is in the correct folder and accessible.")%string.

(** The console line for a failed load. *)
Definition error_line (i : Instrument) : string :=
  ("Error loading " ++ name i ++ " from " ++ url i ++ ":")%string.

(** The ids [createBeatIndicators] gives the eight indicators. *)
Definition beat_ids : list string :=
  map (fun i => ("beat-" ++ string_of_Z i)%string)
    (map Z.of_nat (seq 1 (Z.to_nat totalBeats))).

(** The successor on the cycle 1, 2, ..., 8, 1 (and 1 after the initial 0). *)
Definition next_beat (b : Z) : Z := if b =? totalBeats then 1 else b + 1.

(** An environment in which every audio file loads, with the engine's own
    player name. *)
Definition env_all_loaded : Env :=
  {| loads := fun _ => true;
     engine_player_name := "Player";
     volumeSlider_value := "-10";
     context_running_at_load := false;
     playPauseText_at_load := "Play";
     messageBox_class := ["hidden"] |}.

(** An environment in which piano.wav is missing. *)
Definition env_piano_missing : Env :=
  {| loads := fun u => negb (String.eqb u "piano.wav");
     engine_player_name := "Player";
     volumeSlider_value := "-10";
     context_running_at_load := false;
     playPauseText_at_load := "Play";
     messageBox_class := ["hidden"] |}.

(** The callback [togglePlayPause] runs on every player, and the calls it
    makes before that loop. *)
Definition togglePlayPause_callback (v : Variant) (s : State)
  : string -> Player -> Player * list Effect :=
  match state (transport s) with
  | started => pause_if_playing
  | _ =>
      match v with
      | MixerJs => start_if_not_playing
      | Part000 => start_if_not_playing_and_active (instrumentStates s)
      end
  end.

Definition togglePlayPause_prelude (v : Variant) (s : State) : list Effect :=
  match state (transport s) with
  | started => [Transport_pause]
  | _ =>
      match v with
      | MixerJs => []
      | Part000 =>
          if negb (context_running s)
          then [Tone_start;
                console_log "AudioContext resumed from togglePlayPause"]
          else []
      end ++ [Transport_start]
  end.

Definition set_trace (x : list Effect) (s : State) : State :=
  {| players := players s; instrumentButtons := instrumentButtons s;
     instrumentStates := instrumentStates s; currentBeat := currentBeat s;
     beatCounter := beatCounter s; transport := transport s;
     context_running := context_running s; masterVolume := masterVolume s;
     beatDisplay := beatDisplay s; playPauseText := playPauseText s;
     messageBox := messageBox s; trace := x |}.

(** The state [toggleInstrument] writes when it finds player [p] and the
    enabled button [b] under the name. *)
Definition toggled (instrumentName : string) (p : Player) (b : Button)
    (s : State) : State :=
  let st := negb (truthy (Obj.get (instrumentStates s) instrumentName)) in
  set_instrumentButtons
    (Obj.set (instrumentButtons s) instrumentName
       (set_classList
          (if st then classList_add (classList b) ["active"]
           else classList_remove (classList b) "active") b))
    (set_players
       (Obj.set (players s) instrumentName (set_volume (volume_for st) p))
       (set_instrumentStates (Obj.set (instrumentStates s) instrumentName st) s)).

(** The two counters: [currentBeat] is 0 before the first tick and in 1..8
    afterwards; the captured [beatCounter] is the index of the next beat. *)
Definition beat_inv (s : State) : Prop :=
  0 <= currentBeat s <= totalBeats /\
  beatCounter s = Z.rem (currentBeat s) totalBeats.

(** The eight indicators are in place. *)
Definition display_inv (s : State) : Prop :=
  map span_id (beatDisplay s) = beat_ids /\
  Forall (fun e => classList_contains (span_classList e) "beat-indicator" = true)
    (beatDisplay s).

(** The counters and the indicator row. *)
Definition beats (s : State) : Z * Z * list Span :=
  (currentBeat s, beatCounter s, beatDisplay s).

(** Which indicator carries 'current' when beat [b] is displayed. *)
Definition marks (b : Z) : list (string * bool) :=
  map (fun i => (("beat-" ++ string_of_Z i)%string, i =? b))
    (map Z.of_nat (seq 1 (Z.to_nat totalBeats))).

Definition span_marks (l : list Span) : list (string * bool) :=
  map (fun e => (span_id e, has_current e)) l.

(** "No muted instrument has its player started by [togglePlayPause]." *)
Definition muted_not_started (v : Variant) (s : State) : Prop :=
  forall k p,
    Obj.get (players s) k = Some p ->
    truthy (Obj.get (instrumentStates s) k) = false ->
    ~ In (player_start k) (calls_of_togglePlayPause v s).

(** "[currentBeat] is in 1..8." *)
Definition beat_in_range (s : State) : Prop := 1 <= currentBeat s <= totalBeats.

(** The page of mixer.js with every file loaded, after a click on the
    Clave button: Clave is muted, the transport is stopped. *)
Definition clave_muted : State :=
  run MixerJs (onload MixerJs env_all_loaded) [click_instrument "Clave"].

(** The page of mixer.js with every file loaded, playing. *)
Definition all_playing : State :=
  run MixerJs (onload MixerJs env_all_loaded) [click_playPause].

(** The page of part_000 when piano.wav is missing, once loaded. *)
Definition piano_missing : State := onload Part000 env_piano_missing.

(** The Piano entry of the instrument list of part_000. *)
Definition piano : Instrument :=
  {| name := "Piano"; url := "piano.wav"; triggerBeats := None |}.

(** The Clave entry of the instrument list of part_000. *)
Definition clave : Instrument :=
  {| name := "Clave"; url := "clave.wav"; triggerBeats := None |}.

(** The state [window.onload] hands to [initializeAudio]. *)
Definition before_initializeAudio (v : Variant) (env : Env) : State :=
  createBeatIndicators (createInstrumentButtons v (initial_state env)).


(** The modal of part_000 is visible. *)
Definition modal_visible (s : State) : Prop :=
  classList_contains (messageBox_classList (messageBox s)) "hidden" = false.

(** An engine whose players are all named "Clave", every file loaded. *)
Definition env_named_clave : Env :=
  {| loads := fun _ => true;
     engine_player_name := "Clave";
     volumeSlider_value := "-10";
     context_running_at_load := false;
     playPauseText_at_load := "Play";
     messageBox_class := ["hidden"] |}.

(** The page of part_000 on that engine, after a click on the Clave
    button. *)
Definition clave_muted_part000 : State :=
  run Part000 (onload Part000 env_named_clave) [click_instrument "Clave"].

(** *** Further notions used below *)

(** The names of the instruments whose audio loads, in list order. *)
Definition loaded_names (v : Variant) (env : Env) : list string :=
  map name (filter (fun i => loads env (url i)) (instruments v)).

(** Everything of the page except the three maps. *)
Definition outside_maps (s : State)
  : Z * Z * Transport * bool * option string * list Span * string
    * MessageBox * list Effect :=
  (currentBeat s, beatCounter s, transport s, context_running s,
   masterVolume s, beatDisplay s, playPauseText s, messageBox s, trace s).

(** A player but for its volume. *)
Definition but_volume (p : Player) : string * string * bool * bool * bool :=
  (player_name p, player_url p, loop p, autostart p, isPlaying p).

(** A player but for [isPlaying]. *)
Definition but_isPlaying (p : Player)
  : string * string * bool * bool * Decibels :=
  (player_name p, player_url p, loop p, autostart p, volume p).

(** The class list of a button is some fixed classes followed by 'active'
    exactly when the flag is set. *)
Definition shaped (x : option Player * option Button * option bool) : Prop :=
  match x with
  | (Some _, Some b, Some st) =>
      exists base,
        classList_contains base "active" = false /\
        classList b = base ++ (if st then ["active"] else [])
  | _ => True
  end.

(** The engine side of the page, and the label of the play button. *)
Definition engine_side (s : State) : Transport * bool * option string * string :=
  (transport s, context_running s, masterVolume s, playPauseText s).

Definition is_click_playPause (e : Event) : bool :=
  match e with click_playPause => true | _ => false end.

Definition is_beat_tick (e : Event) : bool :=
  match e with beat_tick => true | _ => false end.


Definition ticks (es : list Event) : nat :=
  List.length (filter is_beat_tick es).


(** [currentBeat] after [n] firings of the loop callback. *)
Definition beat_after_ticks (n : nat) : Z :=
  match n with
  | O => 0
  | S m => Z.of_nat m mod totalBeats + 1
  end.

(** The value of the last 'input' event of the slider, [d] if there is
    none. *)
Definition last_slider (d : string) (es : list Event) : string :=
  fold_left (fun acc e => match e with slider_input x => x | _ => acc end) es d.

(** The console line [initializeAudio] writes for an instrument. *)
Definition load_line (env : Env) (i : Instrument) : Effect :=
  if loads env (url i)
  then console_log ("Loaded " ++ name i ++ " from " ++ url i)%string
  else console_error (error_line i).

(** The last instrument of [l] whose audio does not load, if any. *)
Definition last_failed (env : Env) (l : list Instrument) : option Instrument :=
  fold_left (fun acc i => if loads env (url i) then acc else Some i) l None.

(** The message box once the loop of [initializeAudio] (part_000) has
    visited instruments of which [j] was the last to fail. *)
Definition messageBox_after (env : Env) (j : option Instrument) : MessageBox :=
  match j with
  | None => messageBox (initial_state env)
  | Some i =>
      {| messageText := failure_message i;
         messageBox_classList :=
           classList_remove (messageBox_class env) "hidden" |}
  end.

Definition is_click_messageOk (e : Event) : bool :=
  match e with click_messageOk => true | _ => false end.

(** A button but for the presence of 'active' in its class list. *)
Definition button_but_active (b : Button)
  : string * string * bool * string * list string :=
  (id b, textContent b, disabled b, dataset_instrument b,
   classList_remove (classList b) "active").





(** ** Events handled while the audio loads

    [window.onload] is asynchronous: [initializeAudio] yields at every
    [await player.loaded], and the listeners of the instrument buttons
    (attached by [createInstrumentButtons]), of the play button and of
    [mousedown] (attached when the script is read) are live by then.  The
    'input' listener of the slider, the loop callback and the listener of
    the message box's OK button are attached only afterwards.  [onload] above
    is the run in which nothing is handled while the audio loads;
    [onload_during] is the general one. *)

(** An event delivered while [initializeAudio] awaits a player. *)
Definition step_loading (v : Variant) (s : State) (e : Event) : State :=
  match e with
  | click_instrument _ | click_playPause | mousedown => step v s e
  | beat_tick | slider_input _ | click_messageOk => s  (* no listener yet *)
  end.

(** The page while [await player.loaded] is pending and [events] arrive. *)
Definition await_loaded (v : Variant) (events : list Event) (s : State) : State :=
  fold_left (step_loading v) events s.

(** One turn of the [for ... of instruments] loop, with [during n] the
    events handled while the audio of the instrument named [n] is awaited:
    the player is created, the page handles those events, then the [try]
    body or the [catch] body runs. *)
Definition loading_turn (v : Variant) (env : Env)
    (during : string -> list Event) (s : State) (instrument : Instrument)
  : State :=
  initializeAudio_body v env instrument
    (await_loaded v (during (name instrument)) s).

(** [initializeAudio] with events handled while the audio loads. *)
Definition initializeAudio_during (v : Variant) (env : Env)
    (during : string -> list Event) (s : State) : State :=
  let s := set_masterVolume (Some (volumeSlider_value env)) s in
  let s := fold_left (loading_turn v env during) (instruments v) s in
  let s := set_masterVolume (Some (volumeSlider_value env)) s in
  let s := set_transport
             {| state := state (transport s); bpm := 180; transport_loop := true;
                loopEnd := "2m" |} s in
  set_beatCounter 0 s.

(** [window.onload] with events handled while the audio loads. *)
Definition onload_during (v : Variant) (env : Env)
    (during : string -> list Event) : State :=
  let s := createInstrumentButtons v (initial_state env) in
  let s := createBeatIndicators s in
  let s := initializeAudio_during v env during s in
  let s := fold_left (fun s instrument => onload_body instrument s)
             (instruments v) s in
  updateBeatDisplay 1 s.

(** The states the page can be in once [window.onload] has completed,
    whatever was clicked while the audio loaded. *)
Definition reachable_during (v : Variant) (env : Env) (s : State) : Prop :=
  exists during es, s = run v (onload_during v env during) es.

(** The property names every JavaScript object inherits from
    [Object.prototype].  [Obj.get] looks at own properties only, which is
    what the script's lookups find for every other name. *)
Definition Object_prototype_names : list string :=
  [ "constructor"; "hasOwnProperty"; "isPrototypeOf"; "propertyIsEnumerable";
    "toLocaleString"; "toString"; "valueOf"; "__proto__";
    "__defineGetter__"; "__defineSetter__"; "__lookupGetter__";
    "__lookupSetter__" ].

(** Mute flag, player volume and 'active' agree. *)
Definition agreeing (x : option Player * option Button * option bool) : Prop :=
  match x with
  | (Some p, Some b, Some st) => volume p = volume_for st /\ has_active b = st
  | (Some _, _, _) => False
  | (None, _, _) => True
  end.

(** What the script holds about an instrument before its audio has been
    awaited. *)
Definition not_yet_loaded (i : Instrument)
  : option Player * option Button * option bool :=
  (None, Some (new_button i), None).

(** All audio loads; the Clave button is clicked while Conga, the second
    instrument, is still loading. *)
Definition clave_clicked_while_loading (n : string) : list Event :=
  if String.eqb n "Conga" then [click_instrument "Clave"] else [].

(** The play button is clicked while Conga is still loading. *)
Definition play_clicked_while_loading (n : string) : list Event :=
  if String.eqb n "Conga" then [click_playPause] else [].

Definition is_console_error (e : Effect) : bool :=
  match e with console_error _ => true | _ => false end.

Definition is_console (e : Effect) : bool :=
  match e with console_log _ | console_error _ => true | _ => false end.

(** The [console.error] lines, and all the console lines, of a trace. *)
Definition console_errors (t : list Effect) : list Effect :=
  filter is_console_error t.

Definition console_lines (t : list Effect) : list Effect :=
  filter is_console t.

(** The error lines of the instruments of [l] that do not load. *)
Definition error_lines (env : Env) (l : list Instrument) : list Effect :=
  map (fun i => console_error (error_line i))
    (filter (fun i => negb (loads env (url i))) l).

(** The page when the loop of [initializeAudio_during] ends. *)
Definition after_loading_during (v : Variant) (env : Env)
    (during : string -> list Event) : State :=
  fold_left (loading_turn v env during) (instruments v)
    (set_masterVolume (Some (volumeSlider_value env))
       (before_initializeAudio v env)).

(** The Clave entry of the instrument list of a variant. *)
Definition clave_of (v : Variant) : Instrument :=
  match v with
  | MixerJs => {| name := "Clave"; url := "clave.wav";
                  triggerBeats := Some [1; 3; 5; 7]%Q |}
  | Part000 => clave
  end.

(** ** Objects and token lists *)

Module ObjFacts.
Section WithValue.
Context {V : Type}.
Implicit Types (o : Obj.t V) (k : string) (v : V).

Lemma get_set_eq o k v : Obj.get (Obj.set o k v) k = Some v.
Proof.
  induction o as [|[k' v'] r IH]; simpl.
  - now rewrite String.eqb_refl.
  - destruct (String.eqb k' k) eqn:E; simpl; now rewrite E.
Qed.

Lemma get_set_ne o k k' v :
  k <> k' -> Obj.get (Obj.set o k v) k' = Obj.get o k'.
Proof.
  intros Hne. induction o as [|[k0 v0] r IH]; simpl.
  - apply String.eqb_neq in Hne. now rewrite Hne.
  - destruct (String.eqb k0 k) eqn:E; simpl.
    + apply String.eqb_eq in E. subst k0.
      apply String.eqb_neq in Hne. now rewrite Hne.
    + now rewrite IH.
Qed.

Lemma get_set o k k' v :
  Obj.get (Obj.set o k v) k' =
  if String.eqb k k' then Some v else Obj.get o k'.
Proof.
  destruct (String.eqb_spec k k') as [->|Hne].
  - apply get_set_eq.
  - now apply get_set_ne.
Qed.

Lemma get_Some_In o k v : Obj.get o k = Some v -> In (k, v) o.
Proof.
  induction o as [|[k' v'] r IH]; simpl; [discriminate|].
  destruct (String.eqb_spec k' k) as [->|Hne]; intros H.
  - injection H as ->. now left.
  - right. now apply IH.
Qed.

Lemma In_get_is_Some o k v : In (k, v) o -> Obj.get o k <> None.
Proof.
  induction o as [|[k' v'] r IH]; simpl; [tauto|].
  intros [H|H].
  - injection H as -> ->. now rewrite String.eqb_refl.
  - destruct (String.eqb k' k); [discriminate|now apply IH].
Qed.
End WithValue.
End ObjFacts.

Section ClassList.
Implicit Types (c toks : list string) (t u : string).

Lemma contains_In c t : classList_contains c t = true <-> In t c.
Proof.
  unfold classList_contains. rewrite existsb_exists. split.
  - intros (x & Hx & E). apply String.eqb_eq in E. now subst.
  - intros H. exists t. split; [assumption|apply String.eqb_refl].
Qed.

Lemma contains_app c c' t :
  classList_contains (c ++ c') t =
  (classList_contains c t || classList_contains c' t)%bool.
Proof. apply existsb_app. Qed.

Lemma contains_add1 c t u :
  classList_contains (classList_add1 c u) t =
  (classList_contains c t || String.eqb t u)%bool.
Proof.
  unfold classList_add1. destruct (classList_contains c u) eqn:E.
  - destruct (String.eqb_spec t u) as [->|_].
    + rewrite E. reflexivity.
    + now rewrite orb_false_r.
  - rewrite contains_app. simpl. now rewrite orb_false_r.
Qed.

Lemma contains_add c toks t :
  classList_contains (classList_add c toks) t =
  (classList_contains c t || classList_contains toks t)%bool.
Proof.
  unfold classList_add. revert c.
  induction toks as [|u r IH]; intros c; simpl.
  - now rewrite orb_false_r.
  - rewrite IH, contains_add1. now rewrite orb_assoc.
Qed.

Lemma contains_remove c t u :
  classList_contains (classList_remove c u) t =
  (classList_contains c t && negb (String.eqb t u))%bool.
Proof.
  unfold classList_remove, classList_contains.
  induction c as [|x r IH]; simpl; [reflexivity|].
  destruct (String.eqb_spec x u) as [->|Hxu]; simpl.
  - rewrite IH. destruct (String.eqb t u); simpl.
    + now rewrite !andb_false_r.
    + now rewrite !andb_true_r.
  - rewrite IH. destruct (String.eqb_spec t x) as [->|Htx]; simpl.
    + apply String.eqb_neq in Hxu. now rewrite Hxu.
    + reflexivity.
Qed.
End ClassList.

(** ** Loops over the instrument list

    Each of the three loops over [instruments] touches, in the three maps,
    only the entries of the instrument it visits.  With distinct names the
    entry of an instrument after the loop is the loop body applied once. *)

Section ForEachInstrument.
Variable body : Instrument -> State -> State.
Variable f : Instrument ->
             option Player * option Button * option bool ->
             option Player * option Button * option bool.
Hypothesis body_eq :
  forall i s, view (body i s) (name i) = f i (view s (name i)).
Hypothesis body_ne :
  forall i s n, n <> name i -> view (body i s) n = view s n.

Lemma forEach_view_notin l : forall s n,
  ~ In n (map name l) ->
  view (fold_left (fun s i => body i s) l s) n = view s n.
Proof.
  induction l as [|a r IH]; intros s n Hn; simpl; [reflexivity|].
  simpl in Hn. rewrite IH by tauto. apply body_ne. intros ->. tauto.
Qed.

Lemma forEach_view_in l : NoDup (map name l) -> forall s i,
  In i l ->
  view (fold_left (fun s i => body i s) l s) (name i) = f i (view s (name i)).
Proof.
  induction l as [|a r IH]; intros Hnd s i Hi; simpl; [contradiction|].
  simpl in Hnd. inversion Hnd as [|? ? Ha Hr]; subst.
  destruct Hi as [->|Hi].
  - rewrite forEach_view_notin by assumption. apply body_eq.
  - rewrite IH by assumption. f_equal. apply body_ne.
    intros E. apply Ha. rewrite <- E. now apply in_map.
Qed.
End ForEachInstrument.

Lemma instruments_NoDup v : NoDup (map name (instruments v)).
Proof.
  destruct v; simpl;
    repeat (constructor; [simpl; intuition discriminate|]); constructor.
Qed.

Lemma createInstrumentButtons_body_eq i s :
  view (createInstrumentButtons_body i s) (name i) = created_view i (view s (name i)).
Proof.
  unfold createInstrumentButtons_body, view, created_view. simpl.
  now rewrite ObjFacts.get_set_eq.
Qed.

Lemma createInstrumentButtons_body_ne i s n :
  n <> name i -> view (createInstrumentButtons_body i s) n = view s n.
Proof.
  intros Hne. unfold createInstrumentButtons_body, view. simpl.
  now rewrite ObjFacts.get_set_ne by congruence.
Qed.

Lemma initializeAudio_body_eq v env i s :
  view (initializeAudio_body v env i s) (name i) = loaded_view env i (view s (name i)).
Proof.
  unfold initializeAudio_body, view, loaded_view.
  destruct (loads env (url i)).
  - simpl. now rewrite !ObjFacts.get_set_eq.
  - destruct v; simpl;
      destruct (Obj.get (instrumentButtons s) (name i)) eqn:E; simpl;
      now rewrite ?ObjFacts.get_set_eq, ?E.
Qed.

Lemma initializeAudio_body_ne v env i s n :
  n <> name i -> view (initializeAudio_body v env i s) n = view s n.
Proof.
  intros Hne. unfold initializeAudio_body, view.
  destruct (loads env (url i)).
  - simpl. now rewrite !ObjFacts.get_set_ne by congruence.
  - destruct v; simpl;
      destruct (Obj.get (instrumentButtons s) (name i)) eqn:E; simpl;
      now rewrite ?ObjFacts.get_set_ne by congruence.
Qed.

Lemma onload_body_eq i s :
  view (onload_body i s) (name i) = onload_view i (view s (name i)).
Proof.
  unfold onload_body, view, onload_view.
  destruct (Obj.get (instrumentButtons s) (name i)) eqn:Eb; [|now rewrite Eb].
  destruct (truthy (Obj.get (instrumentStates s) (name i))); simpl;
    destruct (Obj.get (players s) (name i)) eqn:Ep; simpl;
    now rewrite ?ObjFacts.get_set_eq, ?Ep.
Qed.

Lemma onload_body_ne i s n :
  n <> name i -> view (onload_body i s) n = view s n.
Proof.
  intros Hne. unfold onload_body, view.
  destruct (Obj.get (instrumentButtons s) (name i)); [|reflexivity].
  destruct (truthy (Obj.get (instrumentStates s) (name i))); simpl;
    destruct (Obj.get (players s) (name i)); simpl;
    now rewrite ?ObjFacts.get_set_ne by congruence.
Qed.

Lemma view_createBeatIndicators s n : view (createBeatIndicators s) n = view s n.
Proof. reflexivity. Qed.

Lemma view_updateBeatDisplay b s n : view (updateBeatDisplay b s) n = view s n.
Proof. reflexivity. Qed.

Lemma view_initializeAudio v env s n :
  view (initializeAudio v env s) n =
  view (fold_left (fun s i => initializeAudio_body v env i s) (instruments v)
          (set_masterVolume (Some (volumeSlider_value env)) s)) n.
Proof. reflexivity. Qed.

Lemma view_initializeAudio_in v env s i :
  In i (instruments v) ->
  view (initializeAudio v env s) (name i) = loaded_view env i (view s (name i)).
Proof.
  intros Hi. rewrite view_initializeAudio.
  rewrite (forEach_view_in _ _ (initializeAudio_body_eq v env)
             (initializeAudio_body_ne v env) _ (instruments_NoDup v)) by assumption.
  reflexivity.
Qed.

Lemma view_initializeAudio_notin v env s n :
  ~ In n (map name (instruments v)) ->
  view (initializeAudio v env s) n = view s n.
Proof.
  intros Hn. rewrite view_initializeAudio.
  now rewrite (forEach_view_notin _ (initializeAudio_body_ne v env)).
Qed.

(** The three maps after [window.onload], instrument by instrument. *)
Lemma view_onload_in v env i :
  In i (instruments v) ->
  view (onload v env) (name i) =
  onload_view i (loaded_view env i (created_view i (None, None, None))).
Proof.
  intros Hi. unfold onload. rewrite view_updateBeatDisplay.
  rewrite (forEach_view_in _ _ onload_body_eq onload_body_ne _
             (instruments_NoDup v)) by assumption.
  rewrite view_initializeAudio_in by assumption.
  rewrite view_createBeatIndicators. unfold createInstrumentButtons.
  rewrite (forEach_view_in _ _ createInstrumentButtons_body_eq
             createInstrumentButtons_body_ne _ (instruments_NoDup v))
    by assumption.
  reflexivity.
Qed.

Lemma view_onload_notin v env n :
  ~ In n (map name (instruments v)) ->
  view (onload v env) n = (None, None, None).
Proof.
  intros Hn. unfold onload. rewrite view_updateBeatDisplay.
  rewrite (forEach_view_notin _ onload_body_ne) by assumption.
  rewrite view_initializeAudio_notin by assumption.
  rewrite view_createBeatIndicators. unfold createInstrumentButtons.
  rewrite (forEach_view_notin _ createInstrumentButtons_body_ne)
    by assumption.
  reflexivity.
Qed.

(** ** [togglePlayPause] *)

Lemma emit_all_trace es : forall s,
  emit_all es s = set_trace (trace s ++ es) s.
Proof.
  unfold emit_all. induction es as [|e r IH]; intros s; simpl.
  - rewrite app_nil_r. now destruct s.
  - rewrite IH. unfold set_trace, emit. simpl. now rewrite <- app_assoc.
Qed.

Lemma fst_forEach_values f o :
  fst (forEach_values f o) =
  map (fun kp => (fst kp, fst (f (fst kp) (snd kp)))) o.
Proof.
  induction o as [|[k p] r IH]; simpl; [reflexivity|].
  destruct (f k p) as [p' es]. destruct (forEach_values f r) as [r' es'].
  simpl in *. now rewrite IH.
Qed.

Lemma snd_forEach_values f o :
  snd (forEach_values f o) = flat_map (fun kp => snd (f (fst kp) (snd kp))) o.
Proof.
  induction o as [|[k p] r IH]; simpl; [reflexivity|].
  destruct (f k p) as [p' es]. destruct (forEach_values f r) as [r' es'].
  simpl in *. now rewrite IH.
Qed.

Lemma get_forEach_values f o n :
  Obj.get (fst (forEach_values f o)) n =
  option_map (fun p => fst (f n p)) (Obj.get o n).
Proof.
  rewrite fst_forEach_values.
  induction o as [|[k p] r IH]; simpl; [reflexivity|].
  destruct (String.eqb_spec k n) as [->|_]; [reflexivity|apply IH].
Qed.

Lemma togglePlayPause_eq v s :
  togglePlayPause v s =
  set_trace
    (trace s ++ togglePlayPause_prelude v s
       ++ snd (forEach_values (togglePlayPause_callback v s) (players s)))
    (set_players (fst (forEach_values (togglePlayPause_callback v s) (players s)))
       (set_playPauseText
          match state (transport s) with started => "Play" | _ => "Pause" end
          (set_transport
             (set_state
                match state (transport s) with
                | started => paused
                | _ => started
                end (transport s))
             (set_context_running
                match state (transport s), v with
                | started, _ | _, MixerJs => context_running s
                | _, Part000 => true
                end s)))).
Proof.
  unfold togglePlayPause, togglePlayPause_prelude, togglePlayPause_callback.
  destruct s as [ps bs sts cb bc tr ctx mv bd ppt mb tc].
  destruct tr as [st b l le]. simpl.
  destruct st, v; simpl;
    try destruct ctx; simpl;
    match goal with
    | |- context [forEach_values ?f ?o] => destruct (forEach_values f o)
    end;
    rewrite emit_all_trace; unfold set_trace; simpl;
    now rewrite <- ?app_assoc.
Qed.

Lemma calls_of_togglePlayPause_eq v s :
  calls_of_togglePlayPause v s =
  togglePlayPause_prelude v s
    ++ snd (forEach_values (togglePlayPause_callback v s) (players s)).
Proof.
  unfold calls_of_togglePlayPause. rewrite togglePlayPause_eq. simpl.
  induction (trace s) as [|e r IH]; [reflexivity|apply IH].
Qed.

Lemma view_togglePlayPause v s n :
  view (togglePlayPause v s) n =
  (option_map (fun p => fst (togglePlayPause_callback v s n p))
     (Obj.get (players s) n),
   Obj.get (instrumentButtons s) n, Obj.get (instrumentStates s) n).
Proof.
  rewrite togglePlayPause_eq. unfold view. simpl.
  now rewrite get_forEach_values.
Qed.

Lemma togglePlayPause_callback_volume v s k p :
  volume (fst (togglePlayPause_callback v s k p)) = volume p.
Proof.
  unfold togglePlayPause_callback, pause_if_playing, start_if_not_playing,
    start_if_not_playing_and_active.
  destruct (state (transport s)), v; simpl;
    repeat match goal with |- context [if ?c then _ else _] => destruct c end;
    reflexivity.
Qed.

(** ** [toggleInstrument] *)

Lemma toggleInstrument_no_player n s :
  Obj.get (players s) n = None -> toggleInstrument n s = Some s.
Proof. unfold toggleInstrument. now intros ->. Qed.

Lemma toggleInstrument_disabled n s p b :
  Obj.get (players s) n = Some p ->
  Obj.get (instrumentButtons s) n = Some b ->
  disabled b = true ->
  toggleInstrument n s = Some s.
Proof. unfold toggleInstrument. now intros -> -> ->. Qed.

Lemma toggleInstrument_enabled n s p b :
  Obj.get (players s) n = Some p ->
  Obj.get (instrumentButtons s) n = Some b ->
  disabled b = false ->
  toggleInstrument n s = Some (toggled n p b s).
Proof.
  unfold toggleInstrument, toggled. intros -> -> ->. simpl.
  rewrite ObjFacts.get_set_eq. simpl.
  now destruct (truthy (Obj.get (instrumentStates s) n)).
Qed.

Lemma step_click_cases v n s :
  step v s (click_instrument n) = s \/
  exists p b,
    Obj.get (players s) n = Some p /\
    Obj.get (instrumentButtons s) n = Some b /\
    disabled b = false /\
    step v s (click_instrument n) = toggled n p b s.
Proof.
  simpl. destruct (Obj.get (players s) n) as [p|] eqn:Ep.
  - destruct (Obj.get (instrumentButtons s) n) as [b|] eqn:Eb.
    + destruct (disabled b) eqn:Ed.
      * left. now rewrite (toggleInstrument_disabled n s p b).
      * right. exists p, b. now rewrite (toggleInstrument_enabled n s p b).
    + left. unfold toggleInstrument. now rewrite Ep, Eb.
  - left. now rewrite toggleInstrument_no_player.
Qed.

Lemma view_toggled_eq n p b s :
  view (toggled n p b s) n =
  (Some (set_volume
           (volume_for (negb (truthy (Obj.get (instrumentStates s) n)))) p),
   Some (set_classList
           (if negb (truthy (Obj.get (instrumentStates s) n))
            then classList_add (classList b) ["active"]
            else classList_remove (classList b) "active") b),
   Some (negb (truthy (Obj.get (instrumentStates s) n)))).
Proof. unfold view, toggled. simpl. now rewrite !ObjFacts.get_set_eq. Qed.

Lemma view_toggled_ne n p b s n' :
  n' <> n -> view (toggled n p b s) n' = view s n'.
Proof.
  intros Hne. unfold view, toggled. simpl.
  now rewrite !ObjFacts.get_set_ne by congruence.
Qed.

Lemma has_active_add b :
  has_active (set_classList (classList_add (classList b) ["active"]) b) = true.
Proof.
  unfold has_active, set_classList. cbn [classList].
  rewrite contains_add. apply orb_true_r.
Qed.

Lemma has_active_remove b :
  has_active (set_classList (classList_remove (classList b) "active") b) = false.
Proof.
  unfold has_active, set_classList. cbn [classList].
  rewrite contains_remove. apply andb_false_r.
Qed.

Lemma consistent_toggled n p b s :
  disabled b = false ->
  consistent (view (toggled n p b s) n).
Proof.
  intros Hd. rewrite view_toggled_eq. cbn [consistent].
  destruct (truthy (Obj.get (instrumentStates s) n)); cbn [negb];
    (split; [exact Hd|split; [reflexivity|]]);
    auto using has_active_add, has_active_remove.
Qed.

(** ** Every event keeps the three maps consistent *)

Lemma view_step_other v s e n :
  (forall m, e = click_instrument m -> m <> n) ->
  e <> click_playPause ->
  view (step v s e) n = view s n.
Proof.
  intros Hm Hp. destruct e as [m| | |x| |]; simpl.
  - specialize (Hm m eq_refl).
    destruct (step_click_cases v m s) as [E|(p & b & _ & _ & _ & E)];
      simpl in E; rewrite E; [reflexivity|].
    apply view_toggled_ne. congruence.
  - congruence.
  - reflexivity.
  - reflexivity.
  - unfold on_mousedown. now destruct (negb (context_running s)).
  - now destruct v.
Qed.

Lemma consistent_step v s e n :
  consistent (view s n) -> consistent (view (step v s e) n).
Proof.
  intros Hc. destruct e as [m| | |x| |].
  - destruct (String.eqb_spec m n) as [->|Hne].
    + destruct (step_click_cases v n s) as [E|(p & b & _ & _ & Hd & E)];
        rewrite E; [assumption|].
      now apply consistent_toggled.
    + rewrite view_step_other; [assumption| |discriminate].
      intros m' [= <-]. assumption.
  - cbn [step]. rewrite view_togglePlayPause. unfold view in Hc.
    cbn [option_map].
    destruct (Obj.get (players s) n) as [p|]; cbn [option_map]; [|exact I].
    destruct (Obj.get (instrumentButtons s) n) as [b|]; [|contradiction].
    destruct (Obj.get (instrumentStates s) n) as [st|]; [|contradiction].
    cbn [consistent] in *. now rewrite togglePlayPause_callback_volume.
  - rewrite view_step_other; [assumption|discriminate|discriminate].
  - rewrite view_step_other; [assumption|discriminate|discriminate].
  - rewrite view_step_other; [assumption|discriminate|discriminate].
  - rewrite view_step_other; [assumption|discriminate|discriminate].
Qed.

(** An instrument without a player stays as it is. *)
Lemma view_step_no_player v s e n :
  Obj.get (players s) n = None -> view (step v s e) n = view s n.
Proof.
  intros Hp. destruct e as [m| | |x| |];
    try (apply view_step_other; [discriminate|discriminate]).
  - destruct (String.eqb_spec m n) as [->|Hne].
    + simpl. now rewrite toggleInstrument_no_player.
    + apply view_step_other; [|discriminate]. intros m' [= <-]. assumption.
  - cbn [step]. rewrite view_togglePlayPause. unfold view. now rewrite Hp.
Qed.

Lemma view_run_no_player v es : forall s n,
  Obj.get (players s) n = None -> view (run v s es) n = view s n.
Proof.
  unfold run. induction es as [|e r IH]; intros s n Hp; simpl; [reflexivity|].
  pose proof (view_step_no_player v s e n Hp) as E.
  rewrite IH; [assumption|].
  unfold view in E. injection E as E1 _ _. now rewrite E1.
Qed.

(** ** The three maps after [window.onload] *)

Lemma view_onload_loaded v env i :
  In i (instruments v) -> loads env (url i) = true ->
  view (onload v env) (name i) =
  (Some (set_volume (dB 0) (Tone_Player env (url i))),
   Some (set_classList (classList_add (classList (new_button i)) ["active"])
           (new_button i)),
   Some true).
Proof.
  intros Hi Hl. rewrite view_onload_in by assumption.
  unfold created_view, loaded_view. rewrite Hl. reflexivity.
Qed.

Lemma view_onload_failed v env i :
  In i (instruments v) -> loads env (url i) = false ->
  view (onload v env) (name i) =
  (None, Some (button_when_not_loaded (button_after_load_error (new_button i))),
   Some false).
Proof.
  intros Hi Hl. rewrite view_onload_in by assumption.
  unfold created_view, loaded_view. rewrite Hl. reflexivity.
Qed.

Lemma consistent_onload v env n : consistent (view (onload v env) n).
Proof.
  destruct (in_dec string_dec n (map name (instruments v))) as [Hn|Hn].
  - apply in_map_iff in Hn. destruct Hn as (i & <- & Hi).
    destruct (loads env (url i)) eqn:Hl.
    + rewrite view_onload_loaded by assumption.
      cbn [consistent]. split; [reflexivity|split; [reflexivity|]].
      apply has_active_add.
    + rewrite view_onload_failed by assumption. exact I.
  - rewrite view_onload_notin by assumption. exact I.
Qed.

(** ** Counters and indicators *)

Lemma fold_left_inv {A B : Type} (f : A -> B -> A) (P : A -> Prop) l :
  (forall a b, P a -> P (f a b)) -> forall a, P a -> P (fold_left f l a).
Proof.
  intros Hf. induction l as [|b r IH]; intros a Ha; simpl; [assumption|].
  apply IH, Hf, Ha.
Qed.

Lemma beats_createInstrumentButtons v s :
  beats (createInstrumentButtons v s) = beats s.
Proof.
  unfold createInstrumentButtons.
  apply (fold_left_inv _ (fun s' => beats s' = beats s)); [|reflexivity].
  intros a i <-. reflexivity.
Qed.

Lemma beats_initializeAudio_body v env i s :
  beats (initializeAudio_body v env i s) = beats s.
Proof.
  unfold initializeAudio_body.
  destruct (loads env (url i)); [reflexivity|].
  destruct v; cbn -[append];
    match goal with
    | |- context [match ?x with Some _ => _ | None => _ end] => now destruct x
    end.
Qed.

Lemma beats_initializeAudio v env s :
  beats (initializeAudio v env s) = (currentBeat s, 0, beatDisplay s).
Proof.
  unfold initializeAudio.
  match goal with
  | |- context [fold_left ?f ?l ?a] =>
      assert (H : beats (fold_left f l a) = beats s)
  end.
  { apply (fold_left_inv _ (fun s' => beats s' = beats s)); [|reflexivity].
    intros a i <-. apply beats_initializeAudio_body. }
  unfold beats in *. injection H as H1 _ H3. cbn. now rewrite H1, H3.
Qed.

Lemma beats_onload_body i s : beats (onload_body i s) = beats s.
Proof.
  unfold onload_body.
  destruct (Obj.get (instrumentButtons s) (name i)); [|reflexivity].
  destruct (truthy (Obj.get (instrumentStates s) (name i))); cbn;
    match goal with
    | |- context [match ?x with Some _ => _ | None => _ end] => now destruct x
    end.
Qed.

Lemma beatDisplay_createBeatIndicators s :
  beatDisplay (createBeatIndicators s) =
  beatDisplay s ++ map beatSpan (map Z.of_nat (seq 1 (Z.to_nat totalBeats))).
Proof.
  unfold createBeatIndicators.
  generalize (map Z.of_nat (seq 1 (Z.to_nat totalBeats))) as l. intros l.
  revert s. induction l as [|i r IH]; intros s; simpl.
  - now rewrite app_nil_r.
  - rewrite IH. unfold createBeatIndicators_body. simpl.
    now rewrite <- app_assoc.
Qed.

Lemma beats_onload v env :
  beats (onload v env) =
  (0, 0,
   add_current "beat-1"
     (map clear_current (beatDisplay (createBeatIndicators (initial_state env))))).
Proof.
  unfold onload.
  match goal with
  | |- beats (updateBeatDisplay 1 ?x) = _ =>
      assert (H : beats x =
                  (0, 0, beatDisplay (createBeatIndicators (initial_state env))))
  end.
  { match goal with
    | |- beats (fold_left ?f ?l ?a) = _ =>
        assert (H : beats (fold_left f l a) = beats a)
    end.
    { apply (fold_left_inv _ (fun s' => beats s' = beats _)); [|reflexivity].
      intros a i <-. apply beats_onload_body. }
    rewrite H, beats_initializeAudio.
    pose proof (beats_createInstrumentButtons v (initial_state env)) as Hc.
    unfold beats in Hc. injection Hc as Hc1 _ Hc3.
    change (currentBeat (createBeatIndicators ?s)) with (currentBeat s).
    rewrite Hc1. f_equal.
    rewrite !beatDisplay_createBeatIndicators. now rewrite Hc3. }
  unfold beats in *. injection H as H1 H2 H3.
  unfold updateBeatDisplay. cbn [currentBeat beatCounter beatDisplay set_beatDisplay].
  now rewrite H1, H2, H3.
Qed.

Lemma currentBeat_beats s : currentBeat s = fst (fst (beats s)).
Proof. reflexivity. Qed.

Lemma beatCounter_beats s : beatCounter s = snd (fst (beats s)).
Proof. reflexivity. Qed.

Lemma beatDisplay_beats s : beatDisplay s = snd (beats s).
Proof. reflexivity. Qed.

Lemma beat_inv_onload v env : beat_inv (onload v env).
Proof.
  unfold beat_inv.
  rewrite (currentBeat_beats (onload v env)), (beatCounter_beats (onload v env)).
  rewrite beats_onload. cbn [fst snd].
  split; [unfold totalBeats; lia|reflexivity].
Qed.

Lemma display_inv_onload v env : display_inv (onload v env).
Proof.
  unfold display_inv. rewrite (beatDisplay_beats (onload v env)).
  rewrite beats_onload. cbn [fst snd].
  split; [reflexivity|]. repeat constructor.
Qed.

Lemma beats_step_other v s e : e <> beat_tick -> beats (step v s e) = beats s.
Proof.
  intros He. destruct e as [m| | |x| |].
  - destruct (step_click_cases v m s) as [E|(p & b & _ & _ & _ & E)];
      rewrite E; reflexivity.
  - cbn [step]. now rewrite togglePlayPause_eq.
  - congruence.
  - reflexivity.
  - cbn [step]. unfold on_mousedown. now destruct (negb (context_running s)).
  - now destruct v.
Qed.

Lemma span_id_clear_current e : span_id (clear_current e) = span_id e.
Proof.
  unfold clear_current.
  now destruct (classList_contains (span_classList e) "beat-indicator").
Qed.

Lemma map_span_id_add_current i l :
  map span_id (add_current i l) = map span_id l.
Proof.
  induction l as [|e r IH]; simpl; [reflexivity|].
  destruct (String.eqb (span_id e) i); simpl; [reflexivity|now rewrite IH].
Qed.

Lemma indicator_clear_current e :
  classList_contains (span_classList e) "beat-indicator" = true ->
  classList_contains (span_classList (clear_current e)) "beat-indicator" = true
  /\ has_current (clear_current e) = false.
Proof.
  intros H. unfold clear_current, has_current. rewrite H.
  cbn [span_classList set_span_classList]. rewrite !contains_remove, H.
  split; [reflexivity|apply andb_false_r].
Qed.

Lemma indicator_add_current i l :
  Forall (fun e => classList_contains (span_classList e) "beat-indicator" = true) l ->
  Forall (fun e => classList_contains (span_classList e) "beat-indicator" = true)
    (add_current i l).
Proof.
  induction 1 as [|e r He Hr IH]; cbn [add_current]; [constructor|].
  destruct (String.eqb (span_id e) i); constructor; try assumption.
  cbn [span_classList set_span_classList]. rewrite contains_add, He.
  reflexivity.
Qed.

Lemma display_inv_updateBeatDisplay b s :
  display_inv s -> display_inv (updateBeatDisplay b s).
Proof.
  intros [Hid Hcl]. unfold display_inv, updateBeatDisplay.
  cbn [beatDisplay set_beatDisplay]. split.
  - rewrite map_span_id_add_current, map_map, <- Hid.
    apply map_ext. intros e. apply span_id_clear_current.
  - apply indicator_add_current. apply Forall_map.
    eapply Forall_impl; [|exact Hcl].
    intros e He. now apply indicator_clear_current.
Qed.

Lemma add_current_marks i l :
  NoDup (map span_id l) ->
  Forall (fun e => has_current e = false) l ->
  span_marks (add_current i l) =
  map (fun e => (span_id e, String.eqb (span_id e) i)) l.
Proof.
  unfold span_marks.
  induction l as [|e r IH]; intros Hnd Hc; cbn [add_current map];
    [reflexivity|].
  cbn [map] in Hnd.
  inversion Hnd as [|? ? He Hr]; subst. inversion Hc as [|? ? Hce Hcr]; subst.
  destruct (String.eqb_spec (span_id e) i) as [E|E]; cbn [map span_id set_span_classList].
  - f_equal.
    + f_equal. unfold has_current. cbn [span_classList set_span_classList].
      rewrite contains_add. apply orb_true_r.
    + apply map_ext_in. intros e' He'. f_equal.
      rewrite (Forall_forall _ r) in Hcr. rewrite (Hcr e' He').
      symmetry. apply String.eqb_neq. intros E'. apply He.
      rewrite E, <- E'. now apply in_map.
  - f_equal; [now rewrite Hce|]. now apply IH.
Qed.

Lemma beat_ids_NoDup : NoDup beat_ids.
Proof.
  unfold beat_ids. cbn.
  repeat (constructor; [simpl; intuition discriminate|]). constructor.
Qed.

(** Displaying a beat of 1..8 marks its indicator and no other. *)
Lemma span_marks_updateBeatDisplay b s :
  display_inv s -> 1 <= b <= totalBeats ->
  span_marks (beatDisplay (updateBeatDisplay b s)) = marks b.
Proof.
  intros [Hid Hcl] Hb. unfold updateBeatDisplay.
  cbn [beatDisplay set_beatDisplay].
  rewrite add_current_marks.
  - rewrite map_map.
    transitivity
      (map (fun n => (n, String.eqb n ("beat-" ++ string_of_Z b)%string))
         (map span_id (beatDisplay s))).
    + rewrite map_map. apply map_ext. intros e.
      now rewrite span_id_clear_current.
    + rewrite Hid. unfold totalBeats in Hb.
      assert (H : b = 1 \/ b = 2 \/ b = 3 \/ b = 4 \/
                  b = 5 \/ b = 6 \/ b = 7 \/ b = 8) by lia.
      repeat (destruct H as [->|H]; [reflexivity|]). now subst.
  - rewrite map_map.
    replace (map (fun e => span_id (clear_current e)) (beatDisplay s))
      with (map span_id (beatDisplay s))
      by (apply map_ext; intros e; now rewrite span_id_clear_current).
    rewrite Hid. apply beat_ids_NoDup.
  - apply Forall_map. eapply Forall_impl; [|exact Hcl].
    intros e He. now apply indicator_clear_current.
Qed.

Lemma filter_has_current_marks l :
  List.length (filter has_current l) =
  List.length (filter snd (span_marks l)).
Proof.
  unfold span_marks. induction l as [|e r IH]; simpl; [reflexivity|].
  destruct (has_current e); simpl; now rewrite IH.
Qed.

Lemma marks_one b :
  1 <= b <= totalBeats -> List.length (filter snd (marks b)) = 1%nat.
Proof.
  unfold totalBeats. intros Hb.
  assert (H : b = 1 \/ b = 2 \/ b = 3 \/ b = 4 \/
              b = 5 \/ b = 6 \/ b = 7 \/ b = 8) by lia.
  repeat (destruct H as [->|H]; [reflexivity|]). now subst.
Qed.

(** The callback on the counters. *)
Lemma beatLoop_counters s :
  beat_inv s ->
  currentBeat (beatLoop s) = next_beat (currentBeat s) /\
  beatCounter (beatLoop s) = Z.rem (next_beat (currentBeat s)) totalBeats /\
  1 <= currentBeat (beatLoop s) <= totalBeats.
Proof.
  intros [Hr Hc]. unfold beatLoop, updateBeatDisplay.
  cbn [currentBeat beatCounter set_currentBeat set_beatCounter set_beatDisplay].
  rewrite Hc. unfold totalBeats in *.
  assert (H : currentBeat s = 0 \/ currentBeat s = 1 \/ currentBeat s = 2 \/
              currentBeat s = 3 \/ currentBeat s = 4 \/ currentBeat s = 5 \/
              currentBeat s = 6 \/ currentBeat s = 7 \/ currentBeat s = 8) by lia.
  repeat (destruct H as [->|H]; [cbn; repeat split; lia|]).
  rewrite H. cbn. repeat split; lia.
Qed.

Lemma beat_inv_step v s e : beat_inv s -> beat_inv (step v s e).
Proof.
  intros Hi. destruct (beatLoop_counters s Hi) as (H1 & H2 & H3).
  destruct e as [m| | |x| |];
    try (unfold beat_inv;
         rewrite (currentBeat_beats (step _ _ _)), (beatCounter_beats (step _ _ _));
         rewrite beats_step_other by discriminate; exact Hi).
  cbn [step]. unfold beat_inv. rewrite H2, H1. split; [|reflexivity].
  rewrite <- H1. lia.
Qed.

Lemma display_inv_step v s e : display_inv s -> display_inv (step v s e).
Proof.
  intros Hi.
  destruct e as [m| | |x| |];
    try (unfold display_inv; rewrite (beatDisplay_beats (step _ _ _));
         rewrite beats_step_other by discriminate; exact Hi).
  cbn [step]. unfold beatLoop.
  destruct (display_inv_updateBeatDisplay
              (Z.rem (beatCounter s) totalBeats + 1)
              (set_currentBeat (Z.rem (beatCounter s) totalBeats + 1) s) Hi)
    as [H1 H2].
  split; assumption.
Qed.

Lemma reachable_inv v env s :
  reachable v env s ->
  beat_inv s /\ display_inv s /\ forall n, consistent (view s n).
Proof.
  intros [es ->]. unfold run.
  apply (fold_left_inv (step v)
           (fun s => beat_inv s /\ display_inv s /\
                     forall n, consistent (view s n))).
  - intros a e (Hb & Hd & Hc).
    auto using beat_inv_step, display_inv_step, consistent_step.
  - auto using beat_inv_onload, display_inv_onload, consistent_onload.
Qed.

Lemma reachable_step v env s e :
  reachable v env s -> reachable v env (step v s e).
Proof.
  intros [es ->]. exists (es ++ [e]). unfold run.
  now rewrite fold_left_app.
Qed.

Lemma reachable_run v env s es :
  reachable v env s -> reachable v env (run v s es).
Proof.
  intros [es0 ->]. exists (es0 ++ es). unfold run.
  now rewrite fold_left_app.
Qed.

(** ** Starting and pausing the players *)

Lemma player_start_not_in_prelude v s k :
  ~ In (player_start k) (togglePlayPause_prelude v s).
Proof.
  unfold togglePlayPause_prelude.
  destruct (state (transport s)), v; simpl;
    try destruct (negb (context_running s)); simpl; intuition discriminate.
Qed.

Lemma player_pause_not_in_prelude v s k :
  ~ In (player_pause k) (togglePlayPause_prelude v s).
Proof.
  unfold togglePlayPause_prelude.
  destruct (state (transport s)), v; simpl;
    try destruct (negb (context_running s)); simpl; intuition discriminate.
Qed.

Lemma In_calls_of_togglePlayPause v s e :
  ~ In e (togglePlayPause_prelude v s) ->
  (In e (calls_of_togglePlayPause v s) <->
   exists k p, In (k, p) (players s) /\
               In e (snd (togglePlayPause_callback v s k p))).
Proof.
  intros Hpre. rewrite calls_of_togglePlayPause_eq, in_app_iff.
  rewrite snd_forEach_values, in_flat_map. split.
  - intros [H|([k p] & Hin & He)]; [contradiction|]. now exists k, p.
  - intros (k & p & Hin & He). right. now exists (k, p).
Qed.

Lemma togglePlayPause_state v s :
  state (transport (togglePlayPause v s)) =
  match state (transport s) with started => paused | _ => started end.
Proof. now rewrite togglePlayPause_eq. Qed.

Lemma In_player_start_calls v s k :
  state (transport s) <> started ->
  (In (player_start k) (calls_of_togglePlayPause v s) <->
   exists p,
     In (k, p) (players s) /\ isPlaying p = false /\
     (v = Part000 ->
      truthy (Obj.get (instrumentStates s) (player_name p)) = true)).
Proof.
  intros Hst.
  rewrite In_calls_of_togglePlayPause by apply player_start_not_in_prelude.
  unfold togglePlayPause_callback, start_if_not_playing,
    start_if_not_playing_and_active.
  split.
  - intros (k' & p & Hin & He). exists p.
    destruct (state (transport s)); [congruence| |];
      destruct v; destruct (isPlaying p) eqn:Ep; simpl in He;
      try contradiction;
      try (destruct (truthy (Obj.get (instrumentStates s) (player_name p)))
             eqn:Et; simpl in He; try contradiction);
      destruct He as [[= <-]|[]]; repeat split; auto; discriminate.
  - intros (p & Hin & Ep & Hv). exists k, p. split; [assumption|].
    destruct (state (transport s)); [congruence| |];
      destruct v; rewrite Ep; simpl; try rewrite (Hv eq_refl); simpl; auto.
Qed.

(** C1, as amended: on STOPPED -> RUNNING, [togglePlayPause] starts only
    players that are loaded (present in [players]) and not already playing,
    and pauses none.  mixer.js starts every such player, whether its
    instrument is muted or not.  In part_000 a player that carries its
    instrument's name is started exactly when, in addition, the instrument
    is not muted. *)
Theorem togglePlayPause_starts_players (v : Variant) (s : State) :
  state (transport s) <> started ->
  state (transport (togglePlayPause v s)) = started /\
  (forall k,
     In (player_start k) (calls_of_togglePlayPause v s) ->
     exists p, In (k, p) (players s) /\ isPlaying p = false) /\
  (forall k,
     v = MixerJs ->
     (In (player_start k) (calls_of_togglePlayPause v s) <->
      exists p, In (k, p) (players s) /\ isPlaying p = false)) /\
  (forall k,
     v = Part000 ->
     (forall p, In (k, p) (players s) -> player_name p = k) ->
     (In (player_start k) (calls_of_togglePlayPause v s) <->
      truthy (Obj.get (instrumentStates s) k) = true /\
      exists p, In (k, p) (players s) /\ isPlaying p = false)) /\
  (forall k, ~ In (player_pause k) (calls_of_togglePlayPause v s)).
Proof.
  intros Hst.
  pose proof (fun k => In_player_start_calls v s k Hst) as Hiff.
  split; [|split; [|split; [|split]]].
  - rewrite togglePlayPause_state. destruct (state (transport s)); congruence.
  - intros k Hin. apply Hiff in Hin. destruct Hin as (p & Hp & Ep & _).
    now exists p.
  - intros k Hv. rewrite Hiff. split.
    + intros (p & Hp & Ep & _). now exists p.
    + intros (p & Hp & Ep). exists p. repeat split; try assumption.
      intros Hv'. congruence.
  - intros k Hv Hname. rewrite Hiff. split.
    + intros (p & Hp & Ep & Ht). specialize (Ht Hv).
      rewrite (Hname p Hp) in Ht. split; [assumption|now exists p].
    + intros (Ht & p & Hp & Ep). exists p. repeat split; try assumption.
      intros _. now rewrite (Hname p Hp).
  - intros k Hin.
    apply In_calls_of_togglePlayPause in Hin;
      [|apply player_pause_not_in_prelude].
    destruct Hin as (k' & p & _ & He).
    unfold togglePlayPause_callback, start_if_not_playing,
      start_if_not_playing_and_active in He.
    destruct (state (transport s)); [congruence| |];
      destruct v; simpl in He;
      repeat match type of He with
             | context [if ?c then _ else _] => destruct c; simpl in He
             end;
      intuition discriminate.
Qed.

Lemma togglePlayPause_starts_players_witness :
  state (transport clave_muted) <> started /\
  (In (player_start "Clave") (calls_of_togglePlayPause MixerJs clave_muted) <->
   exists p, In ("Clave", p) (players clave_muted) /\ isPlaying p = false) /\
  state (transport clave_muted_part000) <> started /\
  (forall p, In ("Clave", p) (players clave_muted_part000) ->
             player_name p = "Clave") /\
  (In (player_start "Clave")
     (calls_of_togglePlayPause Part000 clave_muted_part000) <->
   truthy (Obj.get (instrumentStates clave_muted_part000) "Clave") = true /\
   exists p,
     In ("Clave", p) (players clave_muted_part000) /\ isPlaying p = false).
Proof.
  assert (H : state (transport clave_muted) <> started)
    by (vm_compute; discriminate).
  assert (H' : state (transport clave_muted_part000) <> started)
    by (vm_compute; discriminate).
  assert (Hn : forall p, In ("Clave", p) (players clave_muted_part000) ->
                         player_name p = "Clave").
  { intros p Hp. vm_compute in Hp.
    repeat (destruct Hp as [Hp|Hp];
            [try discriminate Hp; injection Hp as <-; reflexivity|]).
    contradiction. }
  split; [exact H|]. split.
  { exact (proj1 (proj2 (proj2 (togglePlayPause_starts_players MixerJs
                                  clave_muted H)))
             "Clave" eq_refl). }
  split; [exact H'|]. split; [exact Hn|].
  exact (proj1 (proj2 (proj2 (proj2 (togglePlayPause_starts_players Part000
                                       clave_muted_part000 H'))))
           "Clave" eq_refl Hn).
Defined.

(** C1 as stated fails in mixer.js: with Clave muted and the transport
    stopped, [togglePlayPause] starts the Clave player. *)
Lemma togglePlayPause_starts_muted_player :
  state (transport clave_muted) = stopped /\
  Obj.get (instrumentStates clave_muted) "Clave" = Some false /\
  In (player_start "Clave") (calls_of_togglePlayPause MixerJs clave_muted) /\
  ~ muted_not_started MixerJs clave_muted.
Proof.
  assert (Hin : In (player_start "Clave")
                  (calls_of_togglePlayPause MixerJs clave_muted))
    by (vm_compute; tauto).
  split; [reflexivity|]. split; [reflexivity|]. split; [exact Hin|].
  intros H.
  refine (H "Clave" (set_volume NegInfinity
                       (Tone_Player env_all_loaded "clave.wav")) _ _ Hin);
    reflexivity.
Qed.

(** In part_000 the guard reads [instrumentStates[player.name]]; with the
    engine's own player name it is never true, and no player is started
    although all nine are loaded and unmuted. *)
Example part000_starts_no_player :
  calls_of_togglePlayPause Part000 (onload Part000 env_all_loaded) =
  [Tone_start; console_log "AudioContext resumed from togglePlayPause";
   Transport_start].
Proof. reflexivity. Qed.

(** C3: on RUNNING -> STOPPED, [togglePlayPause] pauses every player whose
    [isPlaying] is true, and only those; afterwards no player reports
    [isPlaying], and a player that was not playing is the same object as
    before. *)
Theorem togglePlayPause_pauses_players (v : Variant) (s : State) :
  state (transport s) = started ->
  state (transport (togglePlayPause v s)) = paused /\
  (forall k,
     In (player_pause k) (calls_of_togglePlayPause v s) <->
     exists p, In (k, p) (players s) /\ isPlaying p = true) /\
  (forall k p', In (k, p') (players (togglePlayPause v s)) ->
                isPlaying p' = false) /\
  (forall k p, Obj.get (players s) k = Some p -> isPlaying p = false ->
               Obj.get (players (togglePlayPause v s)) k = Some p) /\
  (forall k p, Obj.get (players s) k = Some p -> isPlaying p = true ->
               Obj.get (players (togglePlayPause v s)) k =
               Some (set_isPlaying false p)) /\
  (forall k, ~ In (player_start k) (calls_of_togglePlayPause v s)).
Proof.
  intros Hst.
  assert (Hcb : togglePlayPause_callback v s = pause_if_playing)
    by (unfold togglePlayPause_callback; now rewrite Hst).
  assert (Hget : forall k,
            Obj.get (players (togglePlayPause v s)) k =
            option_map (fun p => fst (pause_if_playing k p))
              (Obj.get (players s) k)).
  { intros k. rewrite togglePlayPause_eq. cbn [players set_trace set_players].
    now rewrite get_forEach_values, Hcb. }
  split; [|split; [|split; [|split; [|split]]]].
  - rewrite togglePlayPause_state. now rewrite Hst.
  - intros k.
    rewrite In_calls_of_togglePlayPause by apply player_pause_not_in_prelude.
    rewrite Hcb. unfold pause_if_playing. split.
    + intros (k' & p & Hin & He). exists p.
      destruct (isPlaying p); simpl in He; [|contradiction].
      destruct He as [[= <-]|[]]. now split.
    + intros (p & Hin & Ep). exists k, p. rewrite Ep. simpl. auto.
  - intros k p' Hin. rewrite togglePlayPause_eq in Hin.
    cbn [players set_trace set_players] in Hin.
    rewrite fst_forEach_values, Hcb in Hin. apply in_map_iff in Hin.
    destruct Hin as ([k0 p0] & [= <- <-] & _). simpl.
    unfold pause_if_playing. now destruct (isPlaying p0) eqn:E.
  - intros k p Hp Ep. rewrite Hget, Hp. simpl.
    unfold pause_if_playing. now rewrite Ep.
  - intros k p Hp Ep. rewrite Hget, Hp. simpl.
    unfold pause_if_playing. now rewrite Ep.
  - intros k Hin.
    apply In_calls_of_togglePlayPause in Hin;
      [|apply player_start_not_in_prelude].
    destruct Hin as (k' & p & _ & He). rewrite Hcb in He.
    unfold pause_if_playing in He.
    destruct (isPlaying p); simpl in He; intuition discriminate.
Qed.

Lemma togglePlayPause_pauses_players_witness :
  state (transport all_playing) = started /\
  state (transport (togglePlayPause MixerJs all_playing)) = paused /\
  (forall k p', In (k, p') (players (togglePlayPause MixerJs all_playing)) ->
                isPlaying p' = false).
Proof.
  assert (H : state (transport all_playing) = started) by reflexivity.
  pose proof (togglePlayPause_pauses_players MixerJs all_playing H) as T.
  split; [exact H|]. split; [exact (proj1 T)|exact (proj1 (proj2 (proj2 T)))].
Defined.

(** ** Muting *)

Lemma reachable_consistent v env s n p :
  reachable v env s ->
  Obj.get (players s) n = Some p ->
  exists b st,
    Obj.get (instrumentButtons s) n = Some b /\
    Obj.get (instrumentStates s) n = Some st /\
    disabled b = false /\ volume p = volume_for st /\ has_active b = st.
Proof.
  intros Hr Hp. destruct (reachable_inv v env s Hr) as (_ & _ & Hc).
  specialize (Hc n). unfold view in Hc. rewrite Hp in Hc.
  destruct (Obj.get (instrumentButtons s) n) as [b|]; [|contradiction].
  destruct (Obj.get (instrumentStates s) n) as [st|]; [|contradiction].
  now exists b, st.
Qed.

Lemma view_components s n p b st :
  view s n = (p, b, st) ->
  Obj.get (players s) n = p /\
  Obj.get (instrumentButtons s) n = b /\
  Obj.get (instrumentStates s) n = st.
Proof. unfold view. intros [= -> -> ->]. auto. Qed.

(** C4: on a reachable state, for an instrument that has a player (loaded)
    and an enabled button, [toggleInstrument] flips the mute flag, and a
    second [toggleInstrument] gives back the original flag, the original
    player volume (0 or -Infinity) and the original presence of 'active'. *)
Theorem toggleInstrument_twice (v : Variant) (env : Env) (s : State)
    (n : string) (p : Player) (b : Button) :
  reachable v env s ->
  Obj.get (players s) n = Some p ->
  Obj.get (instrumentButtons s) n = Some b ->
  disabled b = false ->
  exists st s1 s2 p2 b2,
    Obj.get (instrumentStates s) n = Some st /\
    (volume p = dB 0 \/ volume p = NegInfinity) /\
    toggleInstrument n s = Some s1 /\
    Obj.get (instrumentStates s1) n = Some (negb st) /\
    toggleInstrument n s1 = Some s2 /\
    Obj.get (instrumentStates s2) n = Some st /\
    Obj.get (players s2) n = Some p2 /\ volume p2 = volume p /\
    Obj.get (instrumentButtons s2) n = Some b2 /\
    has_active b2 = has_active b /\ disabled b2 = false.
Proof.
  intros Hr Hp Hb Hd.
  destruct (reachable_consistent v env s n p Hr Hp)
    as (b' & st & Hb' & Hst & _ & Hvol & Hact).
  rewrite Hb in Hb'. injection Hb' as <-.
  pose proof (toggleInstrument_enabled n s p b Hp Hb Hd) as H1.
  pose proof (view_toggled_eq n p b s) as V1. rewrite Hst in V1.
  cbn [truthy] in V1.
  apply view_components in V1. destruct V1 as (Vp & Vb & Vs).
  pose proof (toggleInstrument_enabled n (toggled n p b s) _ _ Vp Vb Hd) as H2.
  match type of H2 with
  | _ = Some (toggled n ?p1 ?b1 ?s1) =>
      pose proof (view_toggled_eq n p1 b1 s1) as V2;
      pose proof (consistent_toggled n p1 b1 s1 Hd) as C2
  end.
  rewrite V2 in C2. rewrite Vs in V2, C2. cbn [truthy] in V2, C2.
  rewrite negb_involutive in V2, C2. cbn [consistent] in C2.
  destruct C2 as (Hd2 & Hv2 & Ha2).
  apply view_components in V2. destruct V2 as (Wp & Wb & Ws).
  do 5 eexists.
  split; [exact Hst|]. split; [destruct st; rewrite Hvol; cbn; auto|].
  split; [exact H1|]. split; [exact Vs|]. split; [exact H2|].
  split; [exact Ws|]. split; [exact Wp|]. split; [congruence|].
  split; [exact Wb|]. split; [congruence|exact Hd2].
Qed.

Lemma toggleInstrument_twice_witness :
  exists st s1 s2 p2 b2,
    Obj.get (instrumentStates clave_muted) "Clave" = Some st /\
    (volume (set_volume NegInfinity (Tone_Player env_all_loaded "clave.wav"))
     = dB 0 \/
     volume (set_volume NegInfinity (Tone_Player env_all_loaded "clave.wav"))
     = NegInfinity) /\
    toggleInstrument "Clave" clave_muted = Some s1 /\
    Obj.get (instrumentStates s1) "Clave" = Some (negb st) /\
    toggleInstrument "Clave" s1 = Some s2 /\
    Obj.get (instrumentStates s2) "Clave" = Some st /\
    Obj.get (players s2) "Clave" = Some p2 /\
    volume p2 =
    volume (set_volume NegInfinity (Tone_Player env_all_loaded "clave.wav")) /\
    Obj.get (instrumentButtons s2) "Clave" = Some b2 /\
    has_active b2 =
    has_active
      (set_classList (classList_remove (classList (new_button clave)) "active")
         (new_button clave)) /\
    disabled b2 = false.
Proof.
  apply (toggleInstrument_twice MixerJs env_all_loaded clave_muted "Clave").
  - exists [click_instrument "Clave"]. reflexivity.
  - reflexivity.
  - reflexivity.
  - reflexivity.
Defined.

(** C5: [toggleInstrument] on a name without a player, or whose button is
    disabled, returns the state unchanged; and for an instrument whose audio
    failed to load this is so in every state of the session: it never gets a
    player, its button stays disabled and without 'active', its flag stays
    false. *)
Theorem toggleInstrument_failed_noop (v : Variant) (env : Env) :
  (forall s n,
     Obj.get (players s) n = None \/
     (exists b, Obj.get (instrumentButtons s) n = Some b /\ disabled b = true) ->
     toggleInstrument n s = Some s) /\
  (forall i es,
     In i (instruments v) -> loads env (url i) = false ->
     toggleInstrument (name i) (run v (onload v env) es)
     = Some (run v (onload v env) es) /\
     Obj.get (players (run v (onload v env) es)) (name i) = None /\
     Obj.get (instrumentStates (run v (onload v env) es)) (name i) = Some false /\
     exists b,
       Obj.get (instrumentButtons (run v (onload v env) es)) (name i) = Some b /\
       disabled b = true /\ has_active b = false).
Proof.
  split.
  - intros s n [Hp|(b & Hb & Hd)].
    + now apply toggleInstrument_no_player.
    + destruct (Obj.get (players s) n) as [p|] eqn:Hp.
      * now apply (toggleInstrument_disabled n s p b).
      * now apply toggleInstrument_no_player.
  - intros i es Hi Hl.
    pose proof (view_onload_failed v env i Hi Hl) as V0.
    assert (Hp0 : Obj.get (players (onload v env)) (name i) = None)
      by (unfold view in V0; congruence).
    pose proof (view_run_no_player v es (onload v env) (name i) Hp0) as V.
    rewrite V0 in V. unfold view in V. injection V as Vp Vb Vs.
    split; [now apply toggleInstrument_no_player|].
    split; [exact Vp|]. split; [exact Vs|].
    eexists. split; [exact Vb|]. split; [reflexivity|].
    unfold has_active, button_when_not_loaded, button_after_load_error.
    cbn [classList set_classList set_disabled].
    rewrite contains_add, contains_remove.
    rewrite andb_false_r. reflexivity.
Qed.

Lemma toggleInstrument_failed_noop_witness :
  In piano (instruments Part000) /\
  loads env_piano_missing (url piano) = false /\
  toggleInstrument "Piano"
    (run Part000 (onload Part000 env_piano_missing)
       [click_playPause; click_instrument "Piano"; beat_tick])
  = Some (run Part000 (onload Part000 env_piano_missing)
            [click_playPause; click_instrument "Piano"; beat_tick]).
Proof.
  assert (Hi : In piano (instruments Part000)) by (simpl; tauto).
  assert (Hl : loads env_piano_missing (url piano) = false) by reflexivity.
  split; [exact Hi|]. split; [exact Hl|].
  exact (proj1 (proj2 (toggleInstrument_failed_noop Part000 env_piano_missing)
                  piano [click_playPause; click_instrument "Piano"; beat_tick]
                  Hi Hl)).
Defined.

(** C10: in every state reachable after [window.onload], an instrument
    with a player has its flag true exactly when the player's volume is 0
    and its button carries 'active', and false exactly when the volume is
    -Infinity and 'active' is absent.  [window.onload] establishes this and
    every event, [toggleInstrument] among them, preserves it. *)
Theorem mute_volume_active_agree (v : Variant) (env : Env) :
  (forall n, consistent (view (onload v env) n)) /\
  (forall s e n, consistent (view s n) -> consistent (view (step v s e) n)) /\
  (forall s n p,
     reachable v env s ->
     Obj.get (players s) n = Some p ->
     exists b st,
       Obj.get (instrumentButtons s) n = Some b /\
       Obj.get (instrumentStates s) n = Some st /\
       (st = true <-> volume p = dB 0 /\ has_active b = true) /\
       (st = false <-> volume p = NegInfinity /\ has_active b = false)).
Proof.
  split; [apply consistent_onload|].
  split; [intros s e n; apply consistent_step|].
  intros s n p Hr Hp.
  destruct (reachable_consistent v env s n p Hr Hp)
    as (b & st & Hb & Hst & _ & Hvol & Hact).
  exists b, st. split; [exact Hb|]. split; [exact Hst|].
  rewrite Hvol, Hact. destruct st; cbn; split; split;
    intuition (auto; discriminate).
Qed.

Lemma mute_volume_active_agree_witness :
  exists b st,
    Obj.get (instrumentButtons clave_muted) "Clave" = Some b /\
    Obj.get (instrumentStates clave_muted) "Clave" = Some st /\
    (st = true <->
     volume (set_volume NegInfinity (Tone_Player env_all_loaded "clave.wav"))
     = dB 0 /\ has_active b = true) /\
    (st = false <->
     volume (set_volume NegInfinity (Tone_Player env_all_loaded "clave.wav"))
     = NegInfinity /\ has_active b = false).
Proof.
  apply (proj2 (proj2 (mute_volume_active_agree MixerJs env_all_loaded))
           clave_muted "Clave").
  - exists [click_instrument "Clave"]. reflexivity.
  - reflexivity.
Defined.

(** ** Loading *)

Lemma fold_left_inv_in {A B : Type} (f : A -> B -> A) (P : A -> Prop) l :
  (forall a b, In b l -> P a -> P (f a b)) ->
  forall a, P a -> P (fold_left f l a).
Proof.
  induction l as [|b r IH]; intros Hf a Ha; simpl; [assumption|].
  apply IH; [intros a' b' Hb'; apply Hf; now right|].
  apply Hf; [now left|assumption].
Qed.

Lemma trace_initializeAudio_body v env i s :
  trace (initializeAudio_body v env i s) =
  trace s ++
  [if loads env (url i)
   then console_log ("Loaded " ++ name i ++ " from " ++ url i)%string
   else console_error (error_line i)].
Proof.
  unfold initializeAudio_body, error_line.
  destruct (loads env (url i)); [reflexivity|].
  destruct v; cbn -[append];
    match goal with
    | |- context [match ?x with Some _ => _ | None => _ end] => now destruct x
    end.
Qed.

Lemma messageBox_initializeAudio_body v env i s :
  messageBox (initializeAudio_body v env i s) =
  match v, loads env (url i) with
  | Part000, false =>
      {| messageText := failure_message i;
         messageBox_classList :=
           classList_remove (messageBox_classList (messageBox s)) "hidden" |}
  | _, _ => messageBox s
  end.
Proof.
  unfold initializeAudio_body, failure_message.
  destruct (loads env (url i)); [now destruct v|].
  destruct v; cbn -[append classList_remove];
    match goal with
    | |- context [match ?x with Some _ => _ | None => _ end] => now destruct x
    end.
Qed.


Lemma view_before_initializeAudio v env i :
  In i (instruments v) ->
  view (before_initializeAudio v env) (name i) = (None, Some (new_button i), None).
Proof.
  intros Hi. unfold before_initializeAudio.
  rewrite view_createBeatIndicators. unfold createInstrumentButtons.
  rewrite (forEach_view_in _ _ createInstrumentButtons_body_eq
             createInstrumentButtons_body_ne _ (instruments_NoDup v))
    by assumption.
  reflexivity.
Qed.





(** ** The beat counter *)

Lemma beats_run_no_tick v es : forall s,
  ~ In beat_tick es -> beats (run v s es) = beats s.
Proof.
  unfold run. induction es as [|e r IH]; intros s Hn; simpl; [reflexivity|].
  simpl in Hn. rewrite IH by tauto. apply beats_step_other.
  intros ->. tauto.
Qed.

Lemma span_marks_beatLoop s :
  beat_inv s -> display_inv s ->
  span_marks (beatDisplay (beatLoop s)) = marks (currentBeat (beatLoop s)).
Proof.
  intros Hb Hd. destruct (beatLoop_counters s Hb) as (_ & _ & Hr).
  unfold beatLoop in *.
  cbn [beatDisplay currentBeat set_beatCounter set_currentBeat] in *.
  change (currentBeat (updateBeatDisplay ?b ?x)) with (currentBeat x) in *.
  cbn [currentBeat set_currentBeat] in *.
  apply span_marks_updateBeatDisplay; assumption.
Qed.

(** C2 as stated fails: [currentBeat] is declared as 0 and is still 0 when
    [window.onload] has completed. *)
Lemma currentBeat_starts_at_zero :
  currentBeat (initial_state env_all_loaded) = 0 /\
  ~ beat_in_range (initial_state env_all_loaded) /\
  ~ beat_in_range (onload MixerJs env_all_loaded).
Proof.
  split; [reflexivity|].
  split; intros [H _]; vm_compute in H; now apply H.
Qed.

(** C2, as amended: [currentBeat] is 0 in the initial state and until the
    loop callback first fires; every firing of the callback leaves it an
    integer in 1..8, stepping 8 back to 1; and once it is in 1..8 every
    event keeps it there. *)
Theorem currentBeat_in_range_after_tick (v : Variant) (env : Env) (s : State) :
  reachable v env s ->
  currentBeat (initial_state env) = 0 /\
  currentBeat (onload v env) = 0 /\
  0 <= currentBeat s <= totalBeats /\
  beat_in_range (beatLoop s) /\
  currentBeat (beatLoop s) =
  (if currentBeat s =? totalBeats then 1 else currentBeat s + 1) /\
  (forall e, beat_in_range s -> beat_in_range (step v s e)).
Proof.
  intros Hr. destruct (reachable_inv v env s Hr) as (Hb & _ & _).
  destruct (beatLoop_counters s Hb) as (H1 & _ & H3).
  split; [reflexivity|].
  split; [rewrite (currentBeat_beats (onload v env)), beats_onload; reflexivity|].
  split; [exact (proj1 Hb)|]. split; [exact H3|]. split; [exact H1|].
  intros e Hin. destruct e as [m| | |x| |];
    try (unfold beat_in_range; rewrite (currentBeat_beats (step _ _ _));
         rewrite beats_step_other by discriminate; exact Hin).
  exact H3.
Qed.

Lemma currentBeat_in_range_after_tick_witness :
  0 <= currentBeat (run MixerJs (onload MixerJs env_all_loaded)
                      [click_playPause; beat_tick; beat_tick])
    <= totalBeats /\
  beat_in_range
    (beatLoop (run MixerJs (onload MixerJs env_all_loaded)
                 [click_playPause; beat_tick; beat_tick])).
Proof.
  assert (Hr : reachable MixerJs env_all_loaded
                 (run MixerJs (onload MixerJs env_all_loaded)
                    [click_playPause; beat_tick; beat_tick]))
    by (eexists; reflexivity).
  pose proof (currentBeat_in_range_after_tick MixerJs env_all_loaded _ Hr) as T.
  split; [exact (proj1 (proj2 (proj2 T)))|exact (proj1 (proj2 (proj2 (proj2 T))))].
Defined.

(** C7: in every reachable state a firing of the loop callback moves
    [currentBeat] one step along 1, 2, ..., 8, 1: the first firing gives 1,
    and a firing that follows another, with any other events in between,
    gives the successor, 8 being followed by 1.  The indicator row then shows
    that beat.  No other event, and nothing in [window.onload], changes
    [currentBeat] or the captured [beatCounter]. *)
Theorem beatLoop_advances_cycle (v : Variant) (env : Env) (s : State) :
  reachable v env s ->
  currentBeat (beatLoop s) = next_beat (currentBeat s) /\
  (currentBeat s = 0 -> currentBeat (beatLoop s) = 1) /\
  beat_in_range (beatLoop s) /\
  (forall es,
     ~ In beat_tick es ->
     currentBeat (beatLoop (run v (beatLoop s) es)) =
     next_beat (currentBeat (beatLoop s))) /\
  span_marks (beatDisplay (beatLoop s)) = marks (currentBeat (beatLoop s)) /\
  (forall e,
     e <> beat_tick ->
     currentBeat (step v s e) = currentBeat s /\
     beatCounter (step v s e) = beatCounter s) /\
  currentBeat (onload v env) = currentBeat (initial_state env).
Proof.
  intros Hr. destruct (reachable_inv v env s Hr) as (Hb & Hd & _).
  destruct (beatLoop_counters s Hb) as (H1 & _ & H3).
  split; [exact H1|]. split; [intros E; now rewrite H1, E|].
  split; [exact H3|]. split.
  { intros es Hes.
    assert (Hr' : reachable v env (run v (beatLoop s) es)).
    { apply reachable_run. apply (reachable_step v env s beat_tick Hr). }
    destruct (reachable_inv v env _ Hr') as (Hb' & _ & _).
    destruct (beatLoop_counters _ Hb') as (H1' & _ & _).
    rewrite H1'. f_equal.
    rewrite (currentBeat_beats (run v (beatLoop s) es)).
    now rewrite beats_run_no_tick. }
  split; [now apply span_marks_beatLoop|]. split.
  { intros e He.
    rewrite (currentBeat_beats (step v s e)), (beatCounter_beats (step v s e)).
    rewrite beats_step_other by assumption. now split. }
  rewrite (currentBeat_beats (onload v env)), beats_onload. reflexivity.
Qed.

Lemma beatLoop_advances_cycle_witness :
  currentBeat
    (beatLoop (run Part000 (onload Part000 env_piano_missing)
                 [beat_tick; beat_tick; beat_tick; beat_tick;
                  beat_tick; beat_tick; beat_tick; beat_tick])) =
  next_beat
    (currentBeat (run Part000 (onload Part000 env_piano_missing)
                    [beat_tick; beat_tick; beat_tick; beat_tick;
                     beat_tick; beat_tick; beat_tick; beat_tick])).
Proof.
  refine (proj1 (beatLoop_advances_cycle Part000 env_piano_missing _ _)).
  eexists. reflexivity.
Defined.

(** ** The indicator row *)

Lemma marks_iff b x c :
  1 <= b <= totalBeats ->
  In (x, c) (marks b) ->
  (c = true <-> x = ("beat-" ++ string_of_Z b)%string).
Proof.
  unfold totalBeats. intros Hb Hin.
  assert (H : b = 1 \/ b = 2 \/ b = 3 \/ b = 4 \/
              b = 5 \/ b = 6 \/ b = 7 \/ b = 8) by lia.
  repeat (destruct H as [H|H]; [subst b|]); try subst b;
    vm_compute in Hin;
    repeat (destruct Hin as [Hin|Hin];
            [injection Hin as <- <-; vm_compute; split; intros E;
             try reflexivity; discriminate E|]);
    contradiction.
Qed.

(** C8: in every reachable state, and for every beat of 1..8,
    [updateBeatDisplay] leaves 'current' on exactly one indicator, the one
    whose id is that of the beat, and on no other. *)
Theorem updateBeatDisplay_marks_one (v : Variant) (env : Env) (s : State)
    (beat : Z) :
  reachable v env s ->
  1 <= beat <= totalBeats ->
  span_marks (beatDisplay (updateBeatDisplay beat s)) = marks beat /\
  List.length (filter has_current (beatDisplay (updateBeatDisplay beat s)))
  = 1%nat /\
  (forall e,
     In e (beatDisplay (updateBeatDisplay beat s)) ->
     (has_current e = true <->
      span_id e = ("beat-" ++ string_of_Z beat)%string)) /\
  (exists e,
     In e (beatDisplay (updateBeatDisplay beat s)) /\
     span_id e = ("beat-" ++ string_of_Z beat)%string).
Proof.
  intros Hr Hb. destruct (reachable_inv v env s Hr) as (_ & Hd & _).
  pose proof (span_marks_updateBeatDisplay beat s Hd Hb) as Hm.
  assert (Hall : forall e,
     In e (beatDisplay (updateBeatDisplay beat s)) ->
     (has_current e = true <->
      span_id e = ("beat-" ++ string_of_Z beat)%string)).
  { intros e He. apply (marks_iff beat); [assumption|].
    rewrite <- Hm. unfold span_marks.
    apply (in_map (fun e => (span_id e, has_current e))), He. }
  split; [exact Hm|]. split.
  { rewrite filter_has_current_marks, Hm. now apply marks_one. }
  split; [exact Hall|].
  assert (Hin : In (("beat-" ++ string_of_Z beat)%string, true) (marks beat)).
  { unfold totalBeats in Hb.
    assert (H : beat = 1 \/ beat = 2 \/ beat = 3 \/ beat = 4 \/
                beat = 5 \/ beat = 6 \/ beat = 7 \/ beat = 8) by lia.
    repeat (destruct H as [H|H]; [subst beat; vm_compute; tauto|]).
    subst beat; vm_compute; tauto. }
  rewrite <- Hm in Hin. unfold span_marks in Hin. apply in_map_iff in Hin.
  destruct Hin as (e & [= E _] & He). now exists e.
Qed.

Lemma updateBeatDisplay_marks_one_witness :
  span_marks (beatDisplay (updateBeatDisplay 3 clave_muted)) = marks 3 /\
  List.length (filter has_current (beatDisplay (updateBeatDisplay 3 clave_muted)))
  = 1%nat.
Proof.
  assert (Hr : reachable MixerJs env_all_loaded clave_muted)
    by (eexists; reflexivity).
  assert (Hb : 1 <= 3 <= totalBeats) by (unfold totalBeats; lia).
  pose proof (updateBeatDisplay_marks_one MixerJs env_all_loaded clave_muted 3
                Hr Hb) as T.
  split; [exact (proj1 T)|exact (proj1 (proj2 T))].
Defined.

(** * Further properties of the script *)

(** ** Keys of the three maps *)

Module ObjKeys.
Section WithValue.
Context {V : Type}.
Implicit Types (o : Obj.t V) (k : string) (v : V).

Lemma get_None_keys o k : Obj.get o k = None <-> ~ In k (Obj.keys o).
Proof.
  unfold Obj.keys. induction o as [|[k' v'] r IH]; simpl; [tauto|].
  destruct (String.eqb_spec k' k) as [->|Hne].
  - split; [discriminate|tauto].
  - rewrite IH. tauto.
Qed.

Lemma keys_set o k v :
  Obj.keys (Obj.set o k v) =
  match Obj.get o k with
  | Some _ => Obj.keys o
  | None => Obj.keys o ++ [k]
  end.
Proof.
  unfold Obj.keys. induction o as [|[k' v'] r IH]; simpl; [reflexivity|].
  destruct (String.eqb k' k); simpl; [reflexivity|].
  rewrite IH. now destruct (Obj.get r k).
Qed.

Lemma set_set o k v v' : Obj.set (Obj.set o k v) k v' = Obj.set o k v'.
Proof.
  induction o as [|[k0 v0] r IH]; simpl.
  - now rewrite String.eqb_refl.
  - destruct (String.eqb k0 k) eqn:E; simpl; rewrite E; [reflexivity|].
    now rewrite IH.
Qed.

Lemma set_same o k v : Obj.get o k = Some v -> Obj.set o k v = o.
Proof.
  induction o as [|[k0 v0] r IH]; simpl; [discriminate|].
  destruct (String.eqb k0 k).
  - now intros [= ->].
  - intros H. now rewrite IH.
Qed.
End WithValue.
End ObjKeys.

Lemma keys_forEach_values f o :
  Obj.keys (fst (forEach_values f o)) = Obj.keys o.
Proof.
  rewrite fst_forEach_values. unfold Obj.keys. rewrite map_map.
  now apply map_ext.
Qed.

Lemma keys_createInstrumentButtons l : forall s,
  NoDup (map name l) ->
  (forall i, In i l -> ~ In (name i) (Obj.keys (instrumentButtons s))) ->
  Obj.keys (instrumentButtons
              (fold_left (fun s i => createInstrumentButtons_body i s) l s))
  = Obj.keys (instrumentButtons s) ++ map name l
  /\ players (fold_left (fun s i => createInstrumentButtons_body i s) l s)
     = players s
  /\ instrumentStates
       (fold_left (fun s i => createInstrumentButtons_body i s) l s)
     = instrumentStates s.
Proof.
  induction l as [|a r IH]; intros s Hnd Hfresh; simpl.
  - now rewrite app_nil_r.
  - inversion Hnd as [|? ? Ha Hr]; subst.
    assert (Hk : Obj.keys (instrumentButtons (createInstrumentButtons_body a s))
                 = Obj.keys (instrumentButtons s) ++ [name a]).
    { unfold createInstrumentButtons_body. cbn [instrumentButtons set_instrumentButtons].
      rewrite ObjKeys.keys_set.
      destruct (Obj.get (instrumentButtons s) (name a)) eqn:E; [|reflexivity].
      exfalso. apply (Hfresh a (or_introl eq_refl)).
      destruct (in_dec string_dec (name a) (Obj.keys (instrumentButtons s)))
        as [Hin|Hout]; [assumption|].
      apply ObjKeys.get_None_keys in Hout. congruence. }
    destruct (IH (createInstrumentButtons_body a s) Hr) as (E1 & E2 & E3).
    + intros i Hi. rewrite Hk, in_app_iff. intros [Hin|[Hin|[]]].
      * apply (Hfresh i (or_intror Hi) Hin).
      * apply Ha. rewrite Hin. now apply in_map.
    + rewrite E1, E2, E3, Hk, <- app_assoc. now repeat split.
Qed.

Lemma keys_initializeAudio_body v env l : forall s,
  NoDup (map name l) ->
  (forall i, In i l -> ~ In (name i) (Obj.keys (players s))) ->
  (forall i, In i l -> ~ In (name i) (Obj.keys (instrumentStates s))) ->
  Obj.keys (players (fold_left (fun s i => initializeAudio_body v env i s) l s))
  = Obj.keys (players s)
      ++ map name (filter (fun i => loads env (url i)) l)
  /\ Obj.keys (instrumentStates
                 (fold_left (fun s i => initializeAudio_body v env i s) l s))
     = Obj.keys (instrumentStates s) ++ map name l
  /\ Obj.keys (instrumentButtons
                 (fold_left (fun s i => initializeAudio_body v env i s) l s))
     = Obj.keys (instrumentButtons s).
Proof.
  induction l as [|a r IH]; intros s Hnd Hp Hs; simpl.
  - now rewrite !app_nil_r.
  - inversion Hnd as [|? ? Ha Hr]; subst.
    assert (Ep : Obj.get (players s) (name a) = None)
      by (apply ObjKeys.get_None_keys, Hp; now left).
    assert (Es : Obj.get (instrumentStates s) (name a) = None)
      by (apply ObjKeys.get_None_keys, Hs; now left).
    assert (Hk :
      Obj.keys (players (initializeAudio_body v env a s)) =
      Obj.keys (players s) ++ (if loads env (url a) then [name a] else []) /\
      Obj.keys (instrumentStates (initializeAudio_body v env a s)) =
      Obj.keys (instrumentStates s) ++ [name a] /\
      Obj.keys (instrumentButtons (initializeAudio_body v env a s)) =
      Obj.keys (instrumentButtons s)).
    { unfold initializeAudio_body, showMessageBox. destruct (loads env (url a)).
      - cbn [players instrumentButtons instrumentStates set_players
             set_instrumentStates set_instrumentButtons emit set_messageBox].
        rewrite !ObjKeys.keys_set, Ep, Es. now repeat split.
      - destruct v;
          cbn [players instrumentButtons instrumentStates set_players
               set_instrumentStates set_instrumentButtons emit set_messageBox];
          destruct (Obj.get (instrumentButtons s) (name a)) eqn:Eb;
          cbn [players instrumentButtons instrumentStates set_players
               set_instrumentStates set_instrumentButtons emit set_messageBox];
          rewrite ?ObjKeys.keys_set, ?Es, ?Eb, ?app_nil_r;
          now repeat split. }
    destruct Hk as (K1 & K2 & K3).
    destruct (IH (initializeAudio_body v env a s) Hr) as (E1 & E2 & E3).
    + intros i Hi. rewrite K1, in_app_iff. intros [Hin|Hin].
      * apply (Hp i (or_intror Hi) Hin).
      * destruct (loads env (url a)); [|contradiction].
        destruct Hin as [Hin|[]]. apply Ha. rewrite Hin. now apply in_map.
    + intros i Hi. rewrite K2, in_app_iff. intros [Hin|[Hin|[]]].
      * apply (Hs i (or_intror Hi) Hin).
      * apply Ha. rewrite Hin. now apply in_map.
    + rewrite E1, E2, E3, K1, K2, K3, <- !app_assoc.
      destruct (loads env (url a)); now repeat split.
Qed.

Lemma keys_onload_body i s :
  Obj.keys (players (onload_body i s)) = Obj.keys (players s) /\
  Obj.keys (instrumentButtons (onload_body i s)) = Obj.keys (instrumentButtons s) /\
  instrumentStates (onload_body i s) = instrumentStates s.
Proof.
  unfold onload_body.
  destruct (Obj.get (instrumentButtons s) (name i)) eqn:Eb; [|now repeat split].
  destruct (truthy (Obj.get (instrumentStates s) (name i)));
    cbn [players instrumentButtons instrumentStates set_players
         set_instrumentButtons];
    destruct (Obj.get (players s) (name i)) eqn:Ep;
    cbn [players instrumentButtons instrumentStates set_players
         set_instrumentButtons];
    rewrite ?ObjKeys.keys_set, ?Eb, ?Ep; now repeat split.
Qed.

Lemma keys_onload v env :
  Obj.keys (players (onload v env)) = loaded_names v env /\
  Obj.keys (instrumentButtons (onload v env)) = map name (instruments v) /\
  Obj.keys (instrumentStates (onload v env)) = map name (instruments v).
Proof.
  unfold onload.
  change (players (updateBeatDisplay 1 ?s)) with (players s).
  change (instrumentButtons (updateBeatDisplay 1 ?s)) with (instrumentButtons s).
  change (instrumentStates (updateBeatDisplay 1 ?s)) with (instrumentStates s).
  match goal with
  | |- context [fold_left ?f (instruments v) ?a] =>
      assert (H : Obj.keys (players (fold_left f (instruments v) a))
                  = Obj.keys (players a) /\
                  Obj.keys (instrumentButtons (fold_left f (instruments v) a))
                  = Obj.keys (instrumentButtons a) /\
                  Obj.keys (instrumentStates (fold_left f (instruments v) a))
                  = Obj.keys (instrumentStates a))
  end.
  { apply (fold_left_inv _
             (fun s' => Obj.keys (players s') = Obj.keys (players _) /\
                        Obj.keys (instrumentButtons s')
                        = Obj.keys (instrumentButtons _) /\
                        Obj.keys (instrumentStates s')
                        = Obj.keys (instrumentStates _)));
      [|now repeat split].
    intros a i (H1 & H2 & H3).
    destruct (keys_onload_body i a) as (K1 & K2 & K3).
    rewrite K1, K2, K3. now repeat split. }
  destruct H as (H1 & H2 & H3). rewrite H1, H2, H3. clear H1 H2 H3.
  unfold initializeAudio.
  cbn [players instrumentButtons instrumentStates set_beatCounter set_transport
       set_masterVolume].
  destruct (keys_createInstrumentButtons (instruments v) (initial_state env)
              (instruments_NoDup v)) as (B1 & B2 & B3);
    [intros i _ []|].
  destruct (keys_initializeAudio_body v env (instruments v)
              (set_masterVolume (Some (volumeSlider_value env))
                 (createBeatIndicators
                    (createInstrumentButtons v (initial_state env))))
              (instruments_NoDup v)) as (E1 & E2 & E3).
  - intros i _.
    change (~ In (name i)
              (Obj.keys (players (createInstrumentButtons v (initial_state env))))).
    unfold createInstrumentButtons. rewrite B2. intros [].
  - intros i _.
    change (~ In (name i)
              (Obj.keys (instrumentStates
                           (createInstrumentButtons v (initial_state env))))).
    unfold createInstrumentButtons. rewrite B3. intros [].
  - rewrite E1, E2, E3.
    change (players (set_masterVolume ?x (createBeatIndicators ?s)))
      with (players s).
    change (instrumentStates (set_masterVolume ?x (createBeatIndicators ?s)))
      with (instrumentStates s).
    change (instrumentButtons (set_masterVolume ?x (createBeatIndicators ?s)))
      with (instrumentButtons s).
    unfold createInstrumentButtons. rewrite B1, B2, B3. now repeat split.
Qed.

Lemma keys_step v s e :
  (forall n, consistent (view s n)) ->
  Obj.keys (players (step v s e)) = Obj.keys (players s) /\
  Obj.keys (instrumentButtons (step v s e)) = Obj.keys (instrumentButtons s) /\
  Obj.keys (instrumentStates (step v s e)) = Obj.keys (instrumentStates s).
Proof.
  intros Hc. destruct e as [m| | |x| |].
  - destruct (step_click_cases v m s) as [E|(p & b & Hp & Hb & _ & E)];
      rewrite E; [now repeat split|].
    specialize (Hc m). unfold view in Hc. rewrite Hp, Hb in Hc.
    destruct (Obj.get (instrumentStates s) m) as [st|] eqn:Es; [|contradiction].
    unfold toggled. cbn [players instrumentButtons instrumentStates
                         set_players set_instrumentButtons set_instrumentStates].
    rewrite !ObjKeys.keys_set, Hp, Hb, Es. now repeat split.
  - cbn [step]. rewrite togglePlayPause_eq.
    cbn [players instrumentButtons instrumentStates set_trace set_players
         set_playPauseText set_transport set_context_running].
    rewrite keys_forEach_values. now repeat split.
  - now repeat split.
  - now repeat split.
  - cbn [step]. unfold on_mousedown.
    destruct (negb (context_running s)); now repeat split.
  - destruct v; now repeat split.
Qed.

Lemma reachable_keys v env s :
  reachable v env s ->
  Obj.keys (players s) = loaded_names v env /\
  Obj.keys (instrumentButtons s) = map name (instruments v) /\
  Obj.keys (instrumentStates s) = map name (instruments v).
Proof.
  intros [es ->]. unfold run.
  apply (fold_left_inv (step v)
           (fun s => (Obj.keys (players s) = loaded_names v env /\
                      Obj.keys (instrumentButtons s) = map name (instruments v) /\
                      Obj.keys (instrumentStates s) = map name (instruments v))
                     /\ reachable v env s)).
  - intros a e ((H1 & H2 & H3) & Hr).
    destruct (reachable_inv v env a Hr) as (_ & _ & Hc).
    destruct (keys_step v a e Hc) as (K1 & K2 & K3).
    rewrite K1, K2, K3. split; [now repeat split|].
    now apply reachable_step.
  - split; [apply keys_onload|]. now exists [].
Qed.

(** X1: in every state reachable after [window.onload], the players are
    exactly those of the instruments whose audio loaded, in list order, and
    every instrument has a button and a mute flag; no event adds, removes or
    reorders an entry of the three maps. *)
Theorem maps_keys_fixed (v : Variant) (env : Env) (s : State) :
  reachable v env s ->
  Obj.keys (players s) = loaded_names v env /\
  Obj.keys (instrumentButtons s) = map name (instruments v) /\
  Obj.keys (instrumentStates s) = map name (instruments v).
Proof. apply reachable_keys. Qed.

Lemma maps_keys_fixed_witness :
  Obj.keys (players
              (run Part000 (onload Part000 env_piano_missing)
                 [click_instrument "Clave"; click_playPause; beat_tick]))
  = loaded_names Part000 env_piano_missing.
Proof.
  refine (proj1 (maps_keys_fixed Part000 env_piano_missing _ _)).
  eexists. reflexivity.
Defined.

(** ** More on [toggleInstrument] *)

Lemma classList_remove_absent c t :
  classList_contains c t = false -> classList_remove c t = c.
Proof.
  unfold classList_remove, classList_contains.
  induction c as [|x r IH]; simpl; [reflexivity|].
  intros H. apply orb_false_elim in H. destruct H as [Hx Hr].
  rewrite String.eqb_sym, Hx. simpl. now rewrite IH.
Qed.

Lemma classList_remove_last c t :
  classList_contains c t = false -> classList_remove (c ++ [t]) t = c.
Proof.
  intros H. unfold classList_remove. rewrite filter_app. simpl.
  rewrite String.eqb_refl. simpl. rewrite app_nil_r.
  now apply classList_remove_absent.
Qed.

Lemma classList_add_absent c t :
  classList_contains c t = false -> classList_add c [t] = c ++ [t].
Proof. intros H. unfold classList_add, classList_add1. simpl. now rewrite H. Qed.

Lemma shaped_toggled n p b s st :
  Obj.get (instrumentStates s) n = Some st ->
  shaped (Some p, Some b, Some st) ->
  shaped (view (toggled n p b s) n).
Proof.
  intros Hst (base & Hbase & Hcl). rewrite view_toggled_eq, Hst.
  cbn [truthy shaped]. exists base. split; [assumption|].
  unfold set_classList. cbn [classList]. rewrite Hcl.
  destruct st; cbn [negb].
  - rewrite app_nil_r. now apply classList_remove_last.
  - rewrite app_nil_r. now apply classList_add_absent.
Qed.

Lemma shaped_step v s e n :
  consistent (view s n) -> shaped (view s n) -> shaped (view (step v s e) n).
Proof.
  intros Hc Hs. destruct e as [m| | |x| |].
  - destruct (String.eqb_spec m n) as [->|Hne].
    + destruct (step_click_cases v n s) as [E|(p & b & Hp & Hb & _ & E)];
        rewrite E; [assumption|].
      unfold view in Hc, Hs. rewrite Hp, Hb in Hc, Hs.
      destruct (Obj.get (instrumentStates s) n) as [st|] eqn:Est;
        [|contradiction].
      now apply (shaped_toggled n p b s st).
    + rewrite view_step_other; [assumption| |discriminate].
      intros m' [= <-]. assumption.
  - cbn [step]. rewrite view_togglePlayPause. unfold view in Hs.
    destruct (Obj.get (players s) n) as [p|]; cbn [option_map];
      [exact Hs|exact I].
  - rewrite view_step_other; [assumption|discriminate|discriminate].
  - rewrite view_step_other; [assumption|discriminate|discriminate].
  - rewrite view_step_other; [assumption|discriminate|discriminate].
  - rewrite view_step_other; [assumption|discriminate|discriminate].
Qed.

Lemma shaped_onload v env n : shaped (view (onload v env) n).
Proof.
  destruct (in_dec string_dec n (map name (instruments v))) as [Hn|Hn].
  - apply in_map_iff in Hn. destruct Hn as (i & <- & Hi).
    destruct (loads env (url i)) eqn:Hl.
    + rewrite view_onload_loaded by assumption. cbn [shaped].
      exists (classList_remove (classList (new_button i)) "active").
      split; reflexivity.
    + rewrite view_onload_failed by assumption. exact I.
  - rewrite view_onload_notin by assumption. exact I.
Qed.

Lemma reachable_shaped v env s :
  reachable v env s -> forall n, consistent (view s n) /\ shaped (view s n).
Proof.
  intros [es ->]. unfold run.
  apply (fold_left_inv (step v)
           (fun s => forall n, consistent (view s n) /\ shaped (view s n))).
  - intros a e H n. destruct (H n) as [Hc Hs].
    split; [now apply consistent_step|now apply shaped_step].
  - intros n. split; [apply consistent_onload|apply shaped_onload].
Qed.

Lemma set_volume_same p x : volume p = x -> set_volume x p = p.
Proof. intros <-. now destruct p. Qed.

Lemma set_volume_twice p x y : set_volume y (set_volume x p) = set_volume y p.
Proof. reflexivity. Qed.

Lemma set_classList_same b c : classList b = c -> set_classList c b = b.
Proof. intros <-. now destruct b. Qed.

Lemma button_toggled_twice (b : Button) (st : bool) (base : list string) :
  classList_contains base "active" = false ->
  classList b = base ++ (if st then ["active"] else []) ->
  set_classList
    (if st
     then classList_add
            (classList
               (set_classList
                  (if negb st then classList_add (classList b) ["active"]
                   else classList_remove (classList b) "active") b))
            ["active"]
     else classList_remove
            (classList
               (set_classList
                  (if negb st then classList_add (classList b) ["active"]
                   else classList_remove (classList b) "active") b))
            "active")
    (set_classList
       (if negb st then classList_add (classList b) ["active"]
        else classList_remove (classList b) "active") b) = b.
Proof.
  intros Hbase Hcl. destruct b as [i t c d ds].
  cbn [classList] in Hcl. subst c. unfold set_classList.
  cbn [id textContent classList disabled dataset_instrument].
  f_equal. destruct st; cbn [negb]; rewrite ?app_nil_r.
  - rewrite classList_remove_last by assumption.
    now apply classList_add_absent.
  - rewrite classList_add_absent by assumption.
    now apply classList_remove_last.
Qed.

Lemma toggled_toggled n p b s st base :
  Obj.get (players s) n = Some p ->
  Obj.get (instrumentButtons s) n = Some b ->
  Obj.get (instrumentStates s) n = Some st ->
  volume p = volume_for st ->
  classList_contains base "active" = false ->
  classList b = base ++ (if st then ["active"] else []) ->
  toggled n
    (set_volume (volume_for (negb st)) p)
    (set_classList
       (if negb st then classList_add (classList b) ["active"]
        else classList_remove (classList b) "active") b)
    (toggled n p b s) = s.
Proof.
  intros Hp Hb Hst Hvol Hbase Hcl.
  unfold toggled.
  cbn [players instrumentButtons instrumentStates set_players
       set_instrumentButtons set_instrumentStates].
  rewrite Hst. cbn [truthy]. rewrite ObjFacts.get_set_eq. cbn [truthy].
  rewrite negb_involutive, !ObjKeys.set_set.
  rewrite set_volume_twice, (set_volume_same p _ Hvol).
  rewrite (button_toggled_twice b st base Hbase Hcl).
  rewrite (ObjKeys.set_same _ _ _ Hp), (ObjKeys.set_same _ _ _ Hb),
    (ObjKeys.set_same _ _ _ Hst).
  now destruct s.
Qed.

(** X4: [toggleInstrument] touches only the entries of the name it is
    given, and of the player only its volume: it makes no engine or console
    call, leaves the transport, the counters, the indicators and every other
    instrument alone, and never changes whether a player is playing. *)
Theorem toggleInstrument_frame (n : string) (s s' : State) :
  toggleInstrument n s = Some s' ->
  outside_maps s' = outside_maps s /\
  (forall n', n' <> n -> view s' n' = view s n') /\
  (forall k, option_map but_volume (Obj.get (players s') k) =
             option_map but_volume (Obj.get (players s) k)) /\
  (forall b, Obj.get (instrumentButtons s) n = Some b ->
     exists b', Obj.get (instrumentButtons s') n = Some b' /\
                disabled b' = disabled b /\ id b' = id b).
Proof.
  intros H.
  assert (Hcases : s' = s \/
                   exists p b, Obj.get (players s) n = Some p /\
                               Obj.get (instrumentButtons s) n = Some b /\
                               s' = toggled n p b s).
  { destruct (Obj.get (players s) n) as [p|] eqn:Hp.
    - destruct (Obj.get (instrumentButtons s) n) as [b|] eqn:Hb.
      + destruct (disabled b) eqn:Hd.
        * rewrite (toggleInstrument_disabled n s p b Hp Hb Hd) in H.
          left. congruence.
        * rewrite (toggleInstrument_enabled n s p b Hp Hb Hd) in H.
          right. exists p, b. repeat split; congruence.
      + unfold toggleInstrument in H. rewrite Hp, Hb in H. discriminate.
    - rewrite (toggleInstrument_no_player n s Hp) in H. left. congruence. }
  destruct Hcases as [->|(p & b & Hp & Hb & ->)].
  - repeat split; auto. intros b Hb. now exists b.
  - split; [reflexivity|]. split; [intros n' Hn'; now apply view_toggled_ne|].
    split.
    + intros k. unfold toggled. cbn [players set_players set_instrumentButtons].
      rewrite ObjFacts.get_set.
      destruct (String.eqb_spec n k) as [<-|_]; [|reflexivity].
      now rewrite Hp.
    + intros b0 Hb0. rewrite Hb in Hb0. injection Hb0 as <-.
      pose proof (view_toggled_eq n p b s) as V.
      apply view_components in V. destruct V as (_ & Vb & _).
      eexists. split; [exact Vb|]. now split.
Qed.

Lemma toggleInstrument_frame_witness :
  outside_maps clave_muted = outside_maps (onload MixerJs env_all_loaded) /\
  (forall n', n' <> "Clave" ->
     view clave_muted n' = view (onload MixerJs env_all_loaded) n').
Proof.
  assert (H : toggleInstrument "Clave" (onload MixerJs env_all_loaded)
              = Some clave_muted) by (vm_compute; reflexivity).
  pose proof (toggleInstrument_frame _ _ _ H) as T.
  split; [exact (proj1 T)|exact (proj1 (proj2 T))].
Defined.

(** ** More on [togglePlayPause] *)

Lemma togglePlayPause_callback_but_isPlaying v s k p :
  but_isPlaying (fst (togglePlayPause_callback v s k p)) = but_isPlaying p.
Proof.
  unfold togglePlayPause_callback, pause_if_playing, start_if_not_playing,
    start_if_not_playing_and_active.
  destruct (state (transport s)), v; simpl;
    repeat match goal with |- context [if ?c then _ else _] => destruct c end;
    reflexivity.
Qed.

(** X5: [togglePlayPause] never changes a mute flag, a button, a player's
    volume, the counters, the indicators, the master volume or the message
    box; it keeps the players in place and changes of a player at most
    [isPlaying]. *)
Theorem togglePlayPause_frame (v : Variant) (s : State) :
  instrumentButtons (togglePlayPause v s) = instrumentButtons s /\
  instrumentStates (togglePlayPause v s) = instrumentStates s /\
  beats (togglePlayPause v s) = beats s /\
  masterVolume (togglePlayPause v s) = masterVolume s /\
  messageBox (togglePlayPause v s) = messageBox s /\
  Obj.keys (players (togglePlayPause v s)) = Obj.keys (players s) /\
  (forall k, option_map but_isPlaying (Obj.get (players (togglePlayPause v s)) k)
             = option_map but_isPlaying (Obj.get (players s) k)).
Proof.
  rewrite togglePlayPause_eq.
  cbn [players instrumentButtons instrumentStates masterVolume messageBox
       set_trace set_players set_playPauseText set_transport
       set_context_running].
  repeat (split; [reflexivity|]). split; [apply keys_forEach_values|].
  intros k. rewrite get_forEach_values.
  destruct (Obj.get (players s) k) as [p|]; cbn [option_map]; [|reflexivity].
  now rewrite togglePlayPause_callback_but_isPlaying.
Qed.

(** X6: in mixer.js, when [togglePlayPause] starts the transport every
    player reports [isPlaying] afterwards, muted or not; so a pause followed
    by a resume leaves all players playing. *)
Theorem mixer_start_all_playing (s : State) :
  state (transport s) <> started ->
  (forall k p', In (k, p') (players (togglePlayPause MixerJs s)) ->
                isPlaying p' = true) /\
  (forall k p', In (k, p')
                  (players (togglePlayPause MixerJs
                              (togglePlayPause MixerJs
                                 (togglePlayPause MixerJs s)))) ->
                isPlaying p' = true).
Proof.
  assert (Hstart : forall s0, state (transport s0) <> started ->
            forall k p', In (k, p') (players (togglePlayPause MixerJs s0)) ->
                         isPlaying p' = true).
  { intros s0 Hst k p' Hin. rewrite togglePlayPause_eq in Hin.
    cbn [players set_trace set_players] in Hin.
    rewrite fst_forEach_values in Hin. apply in_map_iff in Hin.
    destruct Hin as ([k0 p0] & [= <- <-] & _).
    unfold togglePlayPause_callback, start_if_not_playing.
    destruct (state (transport s0)); [congruence| |]; cbn [fst snd];
      now destruct (isPlaying p0) eqn:E. }
  intros Hst. split; [now apply Hstart|].
  apply Hstart. rewrite !togglePlayPause_state.
  destruct (state (transport s)); [congruence| |]; discriminate.
Qed.

Lemma mixer_start_all_playing_witness :
  state (transport clave_muted) <> started /\
  (forall k p', In (k, p') (players (togglePlayPause MixerJs clave_muted)) ->
                isPlaying p' = true).
Proof.
  assert (H : state (transport clave_muted) <> started)
    by (vm_compute; discriminate).
  split; [exact H|exact (proj1 (mixer_start_all_playing clave_muted H))].
Defined.

(** ** Transport, master volume and audio context over a session *)

Lemma run_snoc v s es e : run v s (es ++ [e]) = step v (run v s es) e.
Proof. unfold run. now rewrite fold_left_app. Qed.

Lemma engine_side_createInstrumentButtons v s :
  engine_side (createInstrumentButtons v s) = engine_side s.
Proof.
  unfold createInstrumentButtons.
  now apply (fold_left_inv _ (fun s' => engine_side s' = engine_side s)).
Qed.

Lemma engine_side_initializeAudio_body v env i s :
  engine_side (initializeAudio_body v env i s) = engine_side s.
Proof.
  unfold initializeAudio_body.
  destruct (loads env (url i)); [reflexivity|].
  destruct v; cbn -[append];
    match goal with
    | |- context [match ?x with Some _ => _ | None => _ end] => now destruct x
    end.
Qed.

Lemma engine_side_onload_body i s : engine_side (onload_body i s) = engine_side s.
Proof.
  unfold onload_body.
  destruct (Obj.get (instrumentButtons s) (name i)); [|reflexivity].
  destruct (truthy (Obj.get (instrumentStates s) (name i))); cbn;
    match goal with
    | |- context [match ?x with Some _ => _ | None => _ end] => now destruct x
    end.
Qed.

Lemma engine_side_onload v env :
  engine_side (onload v env) =
  ({| state := stopped; bpm := 180; transport_loop := true; loopEnd := "2m" |},
   context_running_at_load env, Some (volumeSlider_value env),
   playPauseText_at_load env).
Proof.
  unfold onload.
  change (engine_side (updateBeatDisplay 1 ?s)) with (engine_side s).
  match goal with
  | |- engine_side (fold_left ?f ?l ?a) = _ =>
      assert (H : engine_side (fold_left f l a) = engine_side a)
  end.
  { apply (fold_left_inv _ (fun s' => engine_side s' = engine_side _));
      [|reflexivity].
    intros a i <-. apply engine_side_onload_body. }
  rewrite H. clear H. unfold initializeAudio.
  match goal with
  | |- context [fold_left ?f ?l ?a] =>
      assert (H : engine_side (fold_left f l a) = engine_side a)
  end.
  { apply (fold_left_inv _ (fun s' => engine_side s' = engine_side _));
      [|reflexivity].
    intros a i <-. apply engine_side_initializeAudio_body. }
  pose proof (engine_side_createInstrumentButtons v (initial_state env)) as Hc.
  unfold engine_side in *.
  cbn [transport context_running masterVolume playPauseText set_beatCounter
       set_transport set_masterVolume] in *.
  change (transport (createBeatIndicators ?s)) with (transport s) in H.
  change (context_running (createBeatIndicators ?s)) with (context_running s) in H.
  change (playPauseText (createBeatIndicators ?s)) with (playPauseText s) in H.
  injection H as H1 H2 _ H4. injection Hc as C1 C2 _ C4.
  rewrite H1, H2, H4, C1, C2, C4. reflexivity.
Qed.

Lemma transport_onload v env :
  transport (onload v env) =
  {| state := stopped; bpm := 180; transport_loop := true; loopEnd := "2m" |}.
Proof.
  change (transport (onload v env))
    with (fst (fst (fst (engine_side (onload v env))))).
  now rewrite engine_side_onload.
Qed.

Lemma context_running_onload v env :
  context_running (onload v env) = context_running_at_load env.
Proof.
  change (context_running (onload v env))
    with (snd (fst (fst (engine_side (onload v env))))).
  now rewrite engine_side_onload.
Qed.

Lemma masterVolume_onload v env :
  masterVolume (onload v env) = Some (volumeSlider_value env).
Proof.
  change (masterVolume (onload v env))
    with (snd (fst (engine_side (onload v env)))).
  now rewrite engine_side_onload.
Qed.


Lemma engine_side_step_other v s e :
  e <> click_playPause -> e <> mousedown ->
  (forall x, e <> slider_input x) ->
  engine_side (step v s e) = engine_side s.
Proof.
  intros H1 H2 H3. destruct e as [m| | |x| |].
  - destruct (step_click_cases v m s) as [E|(p & b & _ & _ & _ & E)];
      rewrite E; reflexivity.
  - congruence.
  - reflexivity.
  - now destruct (H3 x).
  - congruence.
  - now destruct v.
Qed.

Lemma transport_step v s e :
  transport (step v s e) =
  if is_click_playPause e
  then set_state
         match state (transport s) with started => paused | _ => started end
         (transport s)
  else transport s.
Proof.
  destruct e as [m| | |x| |]; cbn [is_click_playPause].
  - destruct (step_click_cases v m s) as [E|(p & b & _ & _ & _ & E)];
      rewrite E; reflexivity.
  - cbn [step]. now rewrite togglePlayPause_eq.
  - reflexivity.
  - reflexivity.
  - cbn [step]. unfold on_mousedown. now destruct (negb (context_running s)).
  - now destruct v.
Qed.




(** X8: [initializeAudio] sets the tempo to 180 and the transport to loop
    over two measures, and no event ever changes these settings. *)
Theorem transport_settings_fixed (v : Variant) (env : Env) (s : State) :
  reachable v env s ->
  bpm (transport s) = 180 /\
  transport_loop (transport s) = true /\
  loopEnd (transport s) = "2m".
Proof.
  intros [es ->]. unfold run.
  apply (fold_left_inv (step v)
           (fun s => bpm (transport s) = 180 /\
                     transport_loop (transport s) = true /\
                     loopEnd (transport s) = "2m")).
  - intros a e H. rewrite transport_step.
    now destruct (is_click_playPause e).
  - rewrite transport_onload. now repeat split.
Qed.

Lemma transport_settings_fixed_witness :
  bpm (transport (run MixerJs (onload MixerJs env_all_loaded)
                    [click_playPause; beat_tick; click_playPause])) = 180.
Proof.
  refine (proj1 (transport_settings_fixed MixerJs env_all_loaded _ _)).
  eexists. reflexivity.
Defined.

Lemma masterVolume_step v s e :
  masterVolume (step v s e) =
  match e with slider_input x => Some x | _ => masterVolume s end.
Proof.
  destruct e as [m| | |x| |].
  - destruct (step_click_cases v m s) as [E|(p & b & _ & _ & _ & E)];
      rewrite E; reflexivity.
  - cbn [step]. now rewrite togglePlayPause_eq.
  - reflexivity.
  - reflexivity.
  - cbn [step]. unfold on_mousedown. now destruct (negb (context_running s)).
  - now destruct v.
Qed.

(** X9: the master volume is always the value of the last 'input' event of
    the slider, or the slider's value at load time if it has not been moved;
    no other event changes it. *)
Theorem masterVolume_follows_slider (v : Variant) (env : Env) (es : list Event) :
  masterVolume (run v (onload v env) es) =
  Some (last_slider (volumeSlider_value env) es).
Proof.
  induction es as [|e es IH] using rev_ind.
  - apply masterVolume_onload.
  - rewrite run_snoc, masterVolume_step, IH. unfold last_slider.
    rewrite fold_left_app. cbn [fold_left]. now destruct e.
Qed.

Lemma context_running_step v s e :
  context_running s = true -> context_running (step v s e) = true.
Proof.
  intros H. destruct e as [m| | |x| |].
  - destruct (step_click_cases v m s) as [E|(p & b & _ & _ & _ & E)];
      rewrite E; assumption.
  - cbn [step]. rewrite togglePlayPause_eq.
    cbn [context_running set_trace set_players set_playPauseText set_transport
         set_context_running].
    destruct (state (transport s)), v; auto.
  - exact H.
  - exact H.
  - cbn [step]. unfold on_mousedown. now rewrite H.
  - now destruct v.
Qed.

(** X10: once the audio context runs it keeps running under every event;
    and in part_000, which awaits [Tone.start()] before it starts the
    transport, the transport is never started or paused with the audio
    context not running. *)
Theorem context_running_kept (v : Variant) (env : Env) (s : State) :
  reachable v env s ->
  (forall e, context_running s = true -> context_running (step v s e) = true) /\
  (v = Part000 -> state (transport s) <> stopped -> context_running s = true).
Proof.
  intros Hr. split; [intros e; apply context_running_step|].
  intros ->. destruct Hr as [es ->]. unfold run.
  apply (fold_left_inv (step Part000)
           (fun s => state (transport s) <> stopped -> context_running s = true)).
  - intros a e IH. destruct e as [m| | |x| |];
      try (rewrite transport_step; cbn [is_click_playPause]; intros H;
           apply context_running_step; now apply IH).
    cbn [step]. rewrite togglePlayPause_eq.
    cbn [context_running state transport set_trace set_players
         set_playPauseText set_transport set_context_running set_state].
    intros _. destruct (state (transport a)) eqn:E; auto.
    apply IH. congruence.
  - rewrite transport_onload. cbn [state]. congruence.
Qed.

Lemma context_running_kept_witness :
  context_running
    (run Part000 (onload Part000 env_piano_missing)
       [click_playPause; click_playPause]) = true.
Proof.
  refine (proj2 (context_running_kept Part000 env_piano_missing _ _)
            eq_refl _).
  - eexists. reflexivity.
  - vm_compute. discriminate.
Defined.

(** ** The beat counter over a session *)

Lemma beats_step_tick v s :
  beat_inv s -> currentBeat (step v s beat_tick) = next_beat (currentBeat s).
Proof. intros H. exact (proj1 (beatLoop_counters s H)). Qed.

Lemma next_beat_after_ticks n :
  next_beat (beat_after_ticks n) = beat_after_ticks (S n).
Proof.
  unfold next_beat, beat_after_ticks, totalBeats. destruct n as [|m].
  - reflexivity.
  - rewrite Nat2Z.inj_succ.
    destruct (Z.eqb_spec (Z.of_nat m mod 8 + 1) 8) as [E|E];
      Z.div_mod_to_equations; lia.
Qed.

(** X11: over a whole session [currentBeat] depends only on how many times
    the loop callback has fired: 0 before the first firing, and
    ((n - 1) mod 8) + 1 after the n-th, whatever other events happen in
    between; eight more firings bring back the same beat. *)
Theorem currentBeat_by_ticks (v : Variant) (env : Env) (es : list Event) :
  currentBeat (run v (onload v env) es) = beat_after_ticks (ticks es) /\
  (ticks es <> O ->
   currentBeat (run v (onload v env) (es ++ repeat beat_tick 8)) =
   currentBeat (run v (onload v env) es)).
Proof.
  assert (H : forall es,
            currentBeat (run v (onload v env) es) = beat_after_ticks (ticks es)).
  { clear es. intros es. induction es as [|e es IH] using rev_ind.
    - rewrite (currentBeat_beats (run v (onload v env) [])).
      unfold run. cbn [fold_left]. now rewrite beats_onload.
    - rewrite run_snoc. unfold ticks in *. rewrite filter_app, length_app.
      destruct e as [m| | |x| |]; cbn [filter is_beat_tick List.length];
        rewrite ?Nat.add_0_r;
        try (rewrite (currentBeat_beats (step _ _ _));
             rewrite beats_step_other by discriminate; exact IH).
      rewrite Nat.add_1_r, <- next_beat_after_ticks, <- IH.
      apply beats_step_tick.
      apply (reachable_inv v env). now exists es. }
  split; [apply H|].
  intros Hn. rewrite !H. unfold ticks in *. rewrite filter_app, length_app.
  cbn [repeat filter is_beat_tick List.length].
  destruct (List.length (filter is_beat_tick es)) as [|m]; [congruence|].
  replace (S m + 8)%nat with (S (m + 8)) by lia.
  unfold beat_after_ticks, totalBeats. rewrite Nat2Z.inj_add.
  change (Z.of_nat 8) with (1 * 8).
  now rewrite Z.mod_add by lia.
Qed.

Lemma currentBeat_by_ticks_witness :
  ticks [beat_tick; click_playPause; beat_tick] <> O /\
  currentBeat (run MixerJs (onload MixerJs env_all_loaded)
                 ([beat_tick; click_playPause; beat_tick]
                    ++ repeat beat_tick 8)) =
  currentBeat (run MixerJs (onload MixerJs env_all_loaded)
                 [beat_tick; click_playPause; beat_tick]).
Proof.
  assert (H : ticks [beat_tick; click_playPause; beat_tick] <> O)
    by (vm_compute; discriminate).
  split; [exact H|].
  exact (proj2 (currentBeat_by_ticks MixerJs env_all_loaded
                  [beat_tick; click_playPause; beat_tick]) H).
Defined.

(** X12: in every state reachable after [window.onload] the indicator row
    shows [currentBeat]: exactly the indicator of that beat carries
    'current', and before the first firing of the callback that of beat 1. *)
Theorem display_shows_currentBeat (v : Variant) (env : Env) (s : State) :
  reachable v env s ->
  span_marks (beatDisplay s) = marks (Z.max 1 (currentBeat s)) /\
  List.length (filter has_current (beatDisplay s)) = 1%nat.
Proof.
  intros Hr.
  assert (H : span_marks (beatDisplay s) = marks (Z.max 1 (currentBeat s))).
  { destruct Hr as [es ->]. induction es as [|e es IH] using rev_ind.
    - unfold run. cbn [fold_left].
      rewrite (beatDisplay_beats (onload v env)),
        (currentBeat_beats (onload v env)), beats_onload.
      cbn [fst snd]. rewrite beatDisplay_createBeatIndicators.
      reflexivity.
    - rewrite run_snoc.
      assert (Hr : reachable v env (run v (onload v env) es)) by now exists es.
      destruct (reachable_inv v env _ Hr) as (Hb & Hd & _).
      destruct e as [m| | |x| |];
        try (rewrite (beatDisplay_beats (step _ _ _)),
               (currentBeat_beats (step _ _ _));
             rewrite beats_step_other by discriminate; exact IH).
      cbn [step]. rewrite span_marks_beatLoop by assumption.
      destruct (beatLoop_counters _ Hb) as (_ & _ & Hrange).
      f_equal. unfold totalBeats in Hrange. lia. }
  split; [exact H|].
  rewrite filter_has_current_marks, H. apply marks_one.
  destruct (reachable_inv v env s Hr) as ((Hb & _) & _ & _).
  unfold totalBeats in *. lia.
Qed.

Lemma display_shows_currentBeat_witness :
  span_marks
    (beatDisplay (run MixerJs (onload MixerJs env_all_loaded)
                    [beat_tick; click_playPause; beat_tick]))
  = marks (Z.max 1 (currentBeat
                      (run MixerJs (onload MixerJs env_all_loaded)
                         [beat_tick; click_playPause; beat_tick]))).
Proof.
  refine (proj1 (display_shows_currentBeat MixerJs env_all_loaded _ _)).
  eexists. reflexivity.
Defined.

(** ** [updateBeatDisplay] on a beat that has no indicator *)

Lemma string_of_Z_inj a b : string_of_Z a = string_of_Z b -> a = b.
Proof.
  unfold string_of_Z. intros H. apply DecimalZ.to_int_inj.
  assert (Hn : forall z, Z.to_int z <> Decimal.Pos Decimal.Nil /\
                         Z.to_int z <> Decimal.Neg Decimal.Nil).
  { intros [|p|p]; split; try discriminate; intros [= E];
      now apply DecimalPos.Unsigned.to_uint_nonnil in E. }
  destruct (Hn a) as [Ha1 Ha2]. destruct (Hn b) as [Hb1 Hb2].
  pose proof (NilZero.isi _ Ha1 Ha2) as Ea.
  pose proof (NilZero.isi _ Hb1 Hb2) as Eb.
  rewrite H in Ea. congruence.
Qed.

Lemma add_current_absent i l :
  ~ In i (map span_id l) -> add_current i l = l.
Proof.
  induction l as [|e r IH]; intros Hn; cbn [add_current]; [reflexivity|].
  cbn [map In] in Hn.
  destruct (String.eqb_spec (span_id e) i) as [E|_]; [tauto|].
  rewrite IH by tauto. reflexivity.
Qed.

Lemma beat_id_not_in_beat_ids beat :
  ~ (1 <= beat <= totalBeats) ->
  ~ In ("beat-" ++ string_of_Z beat)%string beat_ids.
Proof.
  intros Hb Hin. unfold beat_ids in Hin. apply in_map_iff in Hin.
  destruct Hin as (i & E & Hi). cbn [append] in E.
  injection E as E. apply string_of_Z_inj in E. subst i.
  apply Hb. unfold totalBeats in *. vm_compute in Hi.
  repeat (destruct Hi as [<-|Hi]; [lia|]). contradiction.
Qed.

(** X13: [updateBeatDisplay] given a beat outside 1..8 finds no indicator
    and leaves none marked: every indicator has lost 'current' and the row
    keeps its eight elements. *)
Theorem updateBeatDisplay_out_of_range (v : Variant) (env : Env) (s : State)
    (beat : Z) :
  reachable v env s ->
  ~ (1 <= beat <= totalBeats) ->
  (forall e, In e (beatDisplay (updateBeatDisplay beat s)) ->
             has_current e = false) /\
  map span_id (beatDisplay (updateBeatDisplay beat s)) = beat_ids.
Proof.
  intros Hr Hb. destruct (reachable_inv v env s Hr) as (_ & (Hid & Hcl) & _).
  unfold updateBeatDisplay. cbn [beatDisplay set_beatDisplay].
  assert (Hids : map span_id (map clear_current (beatDisplay s)) = beat_ids).
  { rewrite map_map, <- Hid. apply map_ext. intros e.
    apply span_id_clear_current. }
  rewrite add_current_absent
    by (rewrite Hids; now apply beat_id_not_in_beat_ids).
  split; [|exact Hids].
  intros e He. apply in_map_iff in He. destruct He as (e0 & <- & He0).
  rewrite Forall_forall in Hcl.
  now apply indicator_clear_current, Hcl.
Qed.

Lemma updateBeatDisplay_out_of_range_witness :
  ~ (1 <= 9 <= totalBeats) /\
  map span_id (beatDisplay (updateBeatDisplay 9 clave_muted)) = beat_ids.
Proof.
  assert (Hb : ~ (1 <= 9 <= totalBeats)) by (unfold totalBeats; lia).
  split; [exact Hb|].
  refine (proj2 (updateBeatDisplay_out_of_range MixerJs env_all_loaded
                   clave_muted 9 _ Hb)).
  eexists. reflexivity.
Defined.

(** ** Console and message box *)

Lemma trace_createInstrumentButtons v s :
  trace (createInstrumentButtons v s) = trace s /\
  messageBox (createInstrumentButtons v s) = messageBox s.
Proof.
  unfold createInstrumentButtons.
  now apply (fold_left_inv _
               (fun s' => trace s' = trace s /\ messageBox s' = messageBox s)).
Qed.

Lemma trace_onload_body i s :
  trace (onload_body i s) = trace s /\ messageBox (onload_body i s) = messageBox s.
Proof.
  unfold onload_body.
  destruct (Obj.get (instrumentButtons s) (name i)); [|now split].
  destruct (truthy (Obj.get (instrumentStates s) (name i))); cbn;
    match goal with
    | |- context [match ?x with Some _ => _ | None => _ end] => now destruct x
    end.
Qed.

Lemma trace_loop v env l : forall s,
  trace (fold_left (fun s i => initializeAudio_body v env i s) l s) =
  trace s ++ map (load_line env) l.
Proof.
  induction l as [|a r IH]; intros s; cbn [fold_left map].
  - now rewrite app_nil_r.
  - rewrite IH, trace_initializeAudio_body, <- app_assoc. reflexivity.
Qed.

Lemma classList_remove_twice c t :
  classList_remove (classList_remove c t) t = classList_remove c t.
Proof.
  apply classList_remove_absent. rewrite contains_remove.
  rewrite String.eqb_refl. apply andb_false_r.
Qed.

Lemma messageBox_loop env l : forall s,
  messageBox s = messageBox (initial_state env) ->
  messageBox (fold_left (fun s i => initializeAudio_body Part000 env i s) l s) =
  messageBox_after env (last_failed env l).
Proof.
  induction l as [|a r IH] using rev_ind; intros s Hs.
  - exact Hs.
  - unfold last_failed. rewrite !fold_left_app. cbn [fold_left].
    rewrite messageBox_initializeAudio_body, (IH s Hs).
    fold (last_failed env r).
    destruct (loads env (url a)); [reflexivity|].
    unfold messageBox_after. cbn [messageText messageBox_classList].
    destruct (last_failed env r); cbn [messageBox_classList];
      [now rewrite classList_remove_twice|reflexivity].
Qed.

Lemma trace_messageBox_onload v env :
  trace (onload v env) = map (load_line env) (instruments v) /\
  messageBox (onload v env) =
  match v with
  | MixerJs => messageBox (initial_state env)
  | Part000 => messageBox_after env (last_failed env (instruments Part000))
  end.
Proof.
  unfold onload.
  change (trace (updateBeatDisplay 1 ?s)) with (trace s).
  change (messageBox (updateBeatDisplay 1 ?s)) with (messageBox s).
  match goal with
  | |- context [fold_left ?f (instruments v) ?a] =>
      assert (H : trace (fold_left f (instruments v) a) = trace a /\
                  messageBox (fold_left f (instruments v) a) = messageBox a)
  end.
  { apply (fold_left_inv _
             (fun s' => trace s' = trace _ /\ messageBox s' = messageBox _));
      [|now split].
    intros a i [H1 H2]. destruct (trace_onload_body i a) as [K1 K2].
    rewrite K1, K2. now split. }
  destruct H as [H1 H2]. rewrite H1, H2. clear H1 H2.
  unfold initializeAudio.
  cbn [trace messageBox set_beatCounter set_transport set_masterVolume].
  destruct (trace_createInstrumentButtons v (initial_state env)) as [C1 C2].
  split.
  - rewrite trace_loop.
    change (trace (set_masterVolume ?x (createBeatIndicators ?s)))
      with (trace s).
    now rewrite C1.
  - destruct v.
    + apply (fold_left_inv _
               (fun s' => messageBox s' = messageBox (initial_state env))).
      * intros a i Ha. now rewrite messageBox_initializeAudio_body.
      * exact C2.
    + apply messageBox_loop. exact C2.
Qed.

(** X15: after [window.onload] of part_000 the message box is as the page
    had it if every instrument loaded; otherwise it has lost 'hidden' and
    shows the failure message of the last instrument of the list that
    failed, earlier failures being overwritten.  In mixer.js it is never
    touched. *)
Theorem onload_modal_last_failure (env : Env) :
  messageBox (onload Part000 env) =
  messageBox_after env (last_failed env (instruments Part000)) /\
  ((forall i, In i (instruments Part000) -> loads env (url i) = true) ->
   messageBox (onload Part000 env) = messageBox (initial_state env)) /\
  (forall pre j post,
     instruments Part000 = pre ++ j :: post ->
     loads env (url j) = false ->
     (forall i, In i post -> loads env (url i) = true) ->
     messageText (messageBox (onload Part000 env)) = failure_message j /\
     modal_visible (onload Part000 env)) /\
  messageBox (onload MixerJs env) = messageBox (initial_state env).
Proof.
  destruct (trace_messageBox_onload Part000 env) as [_ Hm].
  assert (Hall : forall l, (forall i, In i l -> loads env (url i) = true) ->
                           forall acc,
                           fold_left (fun acc i => if loads env (url i)
                                                   then acc else Some i) l acc
                           = acc).
  { induction l as [|a r IH]; intros Hl acc; cbn [fold_left]; [reflexivity|].
    rewrite (Hl a (or_introl eq_refl)). apply IH.
    intros i Hi. apply Hl. now right. }
  split; [exact Hm|]. split; [|split].
  - intros Hl. rewrite Hm. unfold last_failed. now rewrite (Hall _ Hl).
  - intros pre j post Hsplit Hj Hpost. unfold modal_visible.
    rewrite Hm. unfold last_failed.
    rewrite Hsplit, fold_left_app. cbn [fold_left]. rewrite Hj.
    rewrite (Hall _ Hpost). unfold messageBox_after, modal_visible.
    cbn [messageText messageBox_classList]. split; [reflexivity|].
    rewrite contains_remove. apply andb_false_r.
  - apply (trace_messageBox_onload MixerJs env).
Qed.

Lemma onload_modal_last_failure_witness :
  messageText (messageBox (onload Part000 env_piano_missing)) =
  failure_message piano /\
  modal_visible (onload Part000 env_piano_missing).
Proof.
  refine (proj1 (proj2 (proj2 (onload_modal_last_failure env_piano_missing)))
            [clave;
             {| name := "Conga"; url := "conga.wav"; triggerBeats := None |};
             {| name := "Bass"; url := "bass.wav"; triggerBeats := None |}]
            piano
            [{| name := "Maracas"; url := "maracas.wav"; triggerBeats := None |};
             {| name := "Guiro"; url := "guiro.wav"; triggerBeats := None |};
             {| name := "Trumpet"; url := "trumpet.wav"; triggerBeats := None |};
             {| name := "Trombone"; url := "trombone.wav"; triggerBeats := None |};
             {| name := "Vocals"; url := "vocals.wav"; triggerBeats := None |}]
            eq_refl eq_refl _).
  intros i Hi. vm_compute in Hi.
  repeat (destruct Hi as [<-|Hi]; [reflexivity|]). contradiction.
Defined.

Lemma messageBox_step v s e :
  messageBox (step v s e) =
  match v, e with
  | Part000, click_messageOk => messageBox (hideMessageBox s)
  | _, _ => messageBox s
  end.
Proof.
  destruct e as [m| | |x| |].
  - destruct (step_click_cases v m s) as [E|(p & b & _ & _ & _ & E)];
      rewrite E; now destruct v.
  - cbn [step]. rewrite togglePlayPause_eq. now destruct v.
  - now destruct v.
  - now destruct v.
  - cbn [step]. unfold on_mousedown.
    destruct (negb (context_running s)); now destruct v.
  - now destruct v.
Qed.

(** X16: after [window.onload] the text of the message box never changes;
    the box itself stays exactly as [window.onload] left it until the OK
    button is clicked (part_000), and from that click on it is hidden for
    the rest of the session.  In mixer.js no event touches it. *)
Theorem messageBox_over_session (v : Variant) (env : Env) (es : list Event) :
  messageText (messageBox (run v (onload v env) es)) =
  messageText (messageBox (onload v env)) /\
  (v = MixerJs ->
   messageBox (run v (onload v env) es) = messageBox (initial_state env)) /\
  (existsb is_click_messageOk es = false ->
   messageBox (run v (onload v env) es) = messageBox (onload v env)) /\
  (v = Part000 -> existsb is_click_messageOk es = true ->
   ~ modal_visible (run v (onload v env) es)).
Proof.
  induction es as [|e es IH] using rev_ind.
  - unfold run. cbn [fold_left existsb]. split; [reflexivity|].
    split; [intros ->; apply (trace_messageBox_onload MixerJs env)|].
    split; [reflexivity|discriminate].
  - destruct IH as (IH1 & IH2 & IH3 & IH4). unfold modal_visible in *.
    rewrite run_snoc, messageBox_step, existsb_app. cbn [existsb].
    rewrite orb_false_r.
    split; [|split; [|split]].
    + destruct v, e; exact IH1.
    + intros ->. now apply IH2.
    + intros H. apply orb_false_elim in H. destruct H as [H1 H2].
      destruct v, e; try discriminate H2; now apply IH3.
    + intros -> H.
      destruct e; cbn [is_click_messageOk] in H; rewrite ?orb_false_r in H;
        try (now apply IH4).
      unfold hideMessageBox. cbn [messageBox set_messageBox messageBox_classList].
      rewrite contains_add.
      replace (classList_contains ["hidden"] "hidden") with true by reflexivity.
      rewrite orb_true_r. discriminate.
Qed.

Lemma messageBox_over_session_witness :
  ~ modal_visible
      (run Part000 (onload Part000 env_piano_missing)
         [click_messageOk; click_playPause; beat_tick]).
Proof.
  refine (proj2 (proj2 (proj2 (messageBox_over_session Part000
                                 env_piano_missing
                                 [click_messageOk; click_playPause; beat_tick])))
            eq_refl eq_refl).
Defined.

(** ** Buttons over a session *)

Lemma classList_remove_add c t :
  classList_remove (classList_add c [t]) t = classList_remove c t.
Proof.
  unfold classList_add. cbn [fold_left]. unfold classList_add1.
  destruct (classList_contains c t); [reflexivity|].
  unfold classList_remove. rewrite filter_app. cbn [filter].
  rewrite String.eqb_refl. cbn [negb]. apply app_nil_r.
Qed.

Lemma buttons_of_view s s' n :
  view s' n = view s n ->
  Obj.get (instrumentButtons s') n = Obj.get (instrumentButtons s) n.
Proof. unfold view. now intros [= _ H _]. Qed.

Lemma button_step v s e n b :
  Obj.get (instrumentButtons s) n = Some b ->
  exists b',
    Obj.get (instrumentButtons (step v s e)) n = Some b' /\
    button_but_active b' = button_but_active b.
Proof.
  intros Hb.
  assert (Hsame : forall s',
            Obj.get (instrumentButtons s') n = Obj.get (instrumentButtons s) n ->
            exists b', Obj.get (instrumentButtons s') n = Some b' /\
                       button_but_active b' = button_but_active b).
  { intros s' V. exists b. split; [congruence|reflexivity]. }
  destruct e as [m| | |x| |];
    try (apply Hsame, buttons_of_view, view_step_other; discriminate).
  - destruct (String.eqb_spec m n) as [->|Hne].
    + destruct (step_click_cases v n s) as [E|(p & b0 & _ & Hb0 & _ & E)];
        rewrite E; [now exists b|].
      rewrite Hb in Hb0. injection Hb0 as <-.
      pose proof (view_toggled_eq n p b s) as V.
      apply view_components in V. destruct V as (_ & Vb & _).
      eexists. split; [exact Vb|].
      unfold button_but_active, set_classList.
      cbn [id textContent disabled dataset_instrument classList].
      f_equal.
      destruct (negb (truthy (Obj.get (instrumentStates s) n)));
        [apply classList_remove_add|apply classList_remove_twice].
    + apply Hsame, buttons_of_view, view_step_other; [|discriminate].
      intros m' [= <-]. assumption.
  - apply Hsame. cbn [step]. now rewrite togglePlayPause_eq.
Qed.

(** ** Playing and the transport *)

Lemma players_step_other v s e k :
  (forall m, e <> click_instrument m) -> e <> click_playPause ->
  Obj.get (players (step v s e)) k = Obj.get (players s) k.
Proof.
  intros H1 H2.
  assert (V : view (step v s e) k = view s k).
  { apply view_step_other; [|assumption]. intros m E. now destruct (H1 m). }
  unfold view in V. now injection V.
Qed.

Lemma players_step_click v s m k p :
  Obj.get (players (step v s (click_instrument m))) k = Some p ->
  exists p0, Obj.get (players s) k = Some p0 /\
             but_volume p = but_volume p0.
Proof.
  destruct (step_click_cases v m s) as [E|(p1 & b & Hp1 & _ & _ & E)];
    rewrite E; [intros H; now exists p|].
  unfold toggled. cbn [players set_players set_instrumentButtons].
  rewrite ObjFacts.get_set.
  destruct (String.eqb_spec m k) as [<-|_].
  - intros [= <-]. now exists p1.
  - intros H. now exists p.
Qed.

(** ** part_000 and the name of the engine's players *)

Lemma In_get_NoDup {V : Type} (o : Obj.t V) k x :
  NoDup (Obj.keys o) -> In (k, x) o -> Obj.get o k = Some x.
Proof.
  unfold Obj.keys. induction o as [|[k' v'] r IH]; intros Hnd Hin;
    cbn [map fst In Obj.get] in *; [contradiction|].
  inversion Hnd as [|? ? Hk Hr]; subst.
  destruct Hin as [[= -> ->]|Hin].
  - now rewrite String.eqb_refl.
  - destruct (String.eqb_spec k' k) as [->|_]; [|now apply IH].
    exfalso. apply Hk. apply (in_map fst) in Hin. exact Hin.
Qed.

Lemma NoDup_map_filter {A B : Type} (g : A -> B) (f : A -> bool) l :
  NoDup (map g l) -> NoDup (map g (filter f l)).
Proof.
  induction l as [|a r IH]; intros Hnd; cbn [filter map] in *; [constructor|].
  inversion Hnd as [|? ? Ha Hr]; subst.
  destruct (f a); cbn [map]; [|now apply IH].
  constructor; [|now apply IH].
  intros Hin. apply Ha. apply in_map_iff in Hin.
  destruct Hin as (x & <- & Hx). apply in_map. apply filter_In in Hx. tauto.
Qed.

(** ** Calls to the transport over a session *)

Lemma filter_callback_calls (f : Effect -> bool) v s :
  (forall k, f (player_start k) = false) ->
  (forall k, f (player_pause k) = false) ->
  filter f (snd (forEach_values (togglePlayPause_callback v s) (players s))) = [].
Proof.
  intros H1 H2. rewrite snd_forEach_values.
  induction (players s) as [|[k p] r IH]; cbn [flat_map]; [reflexivity|].
  rewrite filter_app, IH, app_nil_r. cbn [fst snd].
  unfold togglePlayPause_callback, pause_if_playing, start_if_not_playing,
    start_if_not_playing_and_active.
  destruct (state (transport s)), v;
    repeat match goal with |- context [if ?c then _ else _] => destruct c end;
    cbn [snd filter]; rewrite ?H1, ?H2; reflexivity.
Qed.



(** ** [initializeAudio] without buttons *)

(** X21: the [catch] block of [initializeAudio] guards its access to the
    button: run on a page where an instrument has no button, it creates
    none and still records that instrument's flag, true if its audio loads
    and false if it does not. *)
Theorem initializeAudio_without_button (v : Variant) (env : Env) (s : State)
    (i : Instrument) :
  In i (instruments v) ->
  Obj.get (instrumentButtons s) (name i) = None ->
  Obj.get (instrumentButtons (initializeAudio v env s)) (name i) = None /\
  Obj.get (instrumentStates (initializeAudio v env s)) (name i)
  = Some (loads env (url i)) /\
  (loads env (url i) = false ->
   Obj.get (players (initializeAudio v env s)) (name i)
   = Obj.get (players s) (name i)).
Proof.
  intros Hi Hb.
  pose proof (view_initializeAudio_in v env s i Hi) as V.
  unfold loaded_view, view at 2 in V. rewrite Hb in V.
  destruct (loads env (url i));
    apply view_components in V; destruct V as (Vp & Vb & Vs);
    (split; [exact Vb|split; [exact Vs|intros H; try discriminate H; exact Vp]]).
Qed.

Lemma initializeAudio_without_button_witness :
  Obj.get (instrumentButtons
             (initializeAudio Part000 env_piano_missing
                (initial_state env_piano_missing))) (name piano) = None /\
  Obj.get (instrumentStates
             (initializeAudio Part000 env_piano_missing
                (initial_state env_piano_missing))) (name piano)
  = Some (loads env_piano_missing (url piano)).
Proof.
  assert (Hi : In piano (instruments Part000)) by (simpl; tauto).
  pose proof (initializeAudio_without_button Part000 env_piano_missing
                (initial_state env_piano_missing) piano Hi eq_refl) as T.
  split; [exact (proj1 T)|exact (proj1 (proj2 T))].
Defined.

(** * Events handled while the audio loads *)

Lemma step_loading_cases v s e :
  step_loading v s e = s \/ step_loading v s e = step v s e.
Proof. destruct e; cbn [step_loading]; auto. Qed.

Lemma await_loaded_inv (P : State -> Prop) v events s :
  (forall s e, P s -> P (step v s e)) -> P s -> P (await_loaded v events s).
Proof.
  intros Hstep. unfold await_loaded. apply fold_left_inv.
  intros a e Ha. destruct (step_loading_cases v a e) as [-> | ->];
    [assumption|now apply Hstep].
Qed.

(** The atomic run is the run in which no event arrives during loading. *)
Lemma onload_during_nothing v env : onload_during v env (fun _ => []) = onload v env.
Proof. reflexivity. Qed.

Lemma reachable_reachable_during v env s :
  reachable v env s -> reachable_during v env s.
Proof. intros [es ->]. exists (fun _ => []), es. reflexivity. Qed.

(** A state property kept by every piece of [window.onload] and by every
    event holds once [window.onload] has completed, whatever arrived while
    the audio loaded, and in every later state. *)
Lemma reachable_during_inv (P : State -> Prop) v env :
  P (before_initializeAudio v env) ->
  (forall s x, P s -> P (set_masterVolume x s)) ->
  (forall s e, P s -> P (step v s e)) ->
  (forall s i, In i (instruments v) -> P s -> P (initializeAudio_body v env i s)) ->
  (forall s, P s -> P (set_beatCounter 0 (set_transport
                          {| state := state (transport s); bpm := 180;
                             transport_loop := true; loopEnd := "2m" |} s))) ->
  (forall s i, P s -> P (onload_body i s)) ->
  (forall s, P s -> P (updateBeatDisplay 1 s)) ->
  forall s, reachable_during v env s -> P s.
Proof.
  intros H0 Hmv Hstep Hbody Htail Hol Hubd s (during & es & ->).
  unfold run. apply fold_left_inv; [exact Hstep|].
  unfold onload_during. apply Hubd.
  apply fold_left_inv; [intros a i; apply Hol|].
  unfold initializeAudio_during. apply Htail. apply Hmv.
  apply fold_left_inv_in.
  - intros a i Hi Ha. unfold loading_turn. apply Hbody; [assumption|].
    now apply await_loaded_inv.
  - apply Hmv. exact H0.
Qed.

Lemma players_of_view s s' n :
  view s' n = view s n ->
  Obj.get (players s') n = Obj.get (players s) n.
Proof. unfold view. now intros [= H _ _]. Qed.

Lemma states_of_view s s' n :
  view s' n = view s n ->
  Obj.get (instrumentStates s') n = Obj.get (instrumentStates s) n.
Proof. unfold view. now intros [= _ _ H]. Qed.

Lemma view_await_loaded_no_player v events : forall s n,
  Obj.get (players s) n = None -> view (await_loaded v events s) n = view s n.
Proof.
  unfold await_loaded.
  induction events as [|e r IH]; intros s n Hp; cbn [fold_left]; [reflexivity|].
  assert (E : view (step_loading v s e) n = view s n).
  { destruct (step_loading_cases v s e) as [-> | ->]; [reflexivity|].
    now apply view_step_no_player. }
  rewrite IH; [exact E|].
  apply players_of_view in E. now rewrite E.
Qed.

Lemma has_player_step v s e n :
  Obj.get (players s) n <> None -> Obj.get (players (step v s e)) n <> None.
Proof.
  intros Hp. destruct e as [m| | |x| |];
    try (rewrite players_step_other by discriminate; exact Hp).
  - destruct (step_click_cases v m s) as [E|(p & b & _ & _ & _ & E)];
      rewrite E; [exact Hp|].
    unfold toggled. cbn [players set_players set_instrumentButtons].
    rewrite ObjFacts.get_set. now destruct (String.eqb m n).
  - cbn [step]. rewrite togglePlayPause_eq. cbn [players set_trace set_players].
    rewrite get_forEach_values.
    now destruct (Obj.get (players s) n).
Qed.

Lemma has_player_body v env i s n :
  Obj.get (players s) n <> None ->
  Obj.get (players (initializeAudio_body v env i s)) n <> None.
Proof.
  intros Hp. destruct (String.eqb_spec n (name i)) as [->|Hne].
  - pose proof (initializeAudio_body_eq v env i s) as V.
    unfold loaded_view, view at 2 in V.
    destruct (loads env (url i));
      apply view_components in V; destruct V as (V & _ & _); rewrite V;
      [discriminate|exact Hp].
  - pose proof (initializeAudio_body_ne v env i s n Hne) as V.
    apply players_of_view in V. now rewrite V.
Qed.

Lemma states_step_other v s e n :
  (forall m, e = click_instrument m -> m <> n) ->
  Obj.get (instrumentStates (step v s e)) n = Obj.get (instrumentStates s) n.
Proof.
  intros Hm. destruct e as [m| | |x| |];
    try (apply states_of_view, view_step_other; [assumption|discriminate]).
  pose proof (view_togglePlayPause v s n) as V.
  apply view_components in V. now destruct V as (_ & _ & V).
Qed.

Section Loading.
Variable v : Variant.
Variable env : Env.
Variable during : string -> list Event.

Local Abbreviation turn := (loading_turn v env during).

Lemma consistent_shaped_await events s :
  (forall n, consistent (view s n) /\ shaped (view s n)) ->
  forall n, consistent (view (await_loaded v events s) n) /\
            shaped (view (await_loaded v events s) n).
Proof.
  apply (await_loaded_inv
           (fun s => forall n, consistent (view s n) /\ shaped (view s n))).
  intros a e H n. destruct (H n) as [Hc Hs].
  split; [now apply consistent_step|now apply shaped_step].
Qed.

Lemma consistent_shaped_body i s :
  view s (name i) = not_yet_loaded i ->
  (forall n, consistent (view s n) /\ shaped (view s n)) ->
  forall n, consistent (view (initializeAudio_body v env i s) n) /\
            shaped (view (initializeAudio_body v env i s) n).
Proof.
  intros Hfresh H n. destruct (String.eqb_spec n (name i)) as [->|Hne].
  - rewrite initializeAudio_body_eq, Hfresh.
    unfold loaded_view, not_yet_loaded.
    destruct (loads env (url i)); [|split; exact I].
    split.
    + cbn [consistent]. repeat split; reflexivity.
    + cbn [shaped].
      exists (classList_remove (classList (new_button i)) "active").
      split; reflexivity.
  - rewrite initializeAudio_body_ne by assumption. apply H.
Qed.

Lemma turn_no_player s i n :
  n <> name i -> Obj.get (players s) n = None -> view (turn s i) n = view s n.
Proof.
  intros Hne Hp. unfold loading_turn.
  rewrite initializeAudio_body_ne by assumption.
  now apply view_await_loaded_no_player.
Qed.

Lemma loading_no_player l : forall s n,
  ~ In n (map name l) -> Obj.get (players s) n = None ->
  view (fold_left turn l s) n = view s n.
Proof.
  induction l as [|a r IH]; intros s n Hn Hp; cbn [fold_left]; [reflexivity|].
  cbn [map In] in Hn.
  assert (E : view (turn s a) n = view s n)
    by (apply turn_no_player; [intros ->; tauto|assumption]).
  rewrite IH; [exact E|tauto|].
  apply players_of_view in E. now rewrite E.
Qed.

Lemma loading_has_player l : forall s n,
  Obj.get (players s) n <> None ->
  Obj.get (players (fold_left turn l s)) n <> None.
Proof.
  induction l as [|a r IH]; intros s n Hp; cbn [fold_left]; [assumption|].
  apply IH. unfold loading_turn. apply has_player_body.
  now apply (await_loaded_inv (fun s => Obj.get (players s) n <> None));
    [intros s0 e; apply has_player_step|].
Qed.

Lemma loading_flag_unclicked l : forall s n,
  ~ In n (map name l) ->
  (forall j, In j l -> ~ In (click_instrument n) (during (name j))) ->
  Obj.get (instrumentStates (fold_left turn l s)) n
  = Obj.get (instrumentStates s) n.
Proof.
  induction l as [|a r IH]; intros s n Hn Hclick; cbn [fold_left];
    [reflexivity|].
  cbn [map In] in Hn. rewrite IH; [|tauto|intros j Hj; apply Hclick; now right].
  unfold loading_turn.
  rewrite (states_of_view _ _ _
             (initializeAudio_body_ne v env a _ n (fun E => Hn (or_introl (eq_sym E))))).
  specialize (Hclick a (or_introl eq_refl)). unfold await_loaded.
  revert s Hclick. induction (during (name a)) as [|e es IHe]; intros s Hc;
    cbn [fold_left]; [reflexivity|].
  cbn [In] in Hc. rewrite IHe by tauto.
  destruct (step_loading_cases v s e) as [-> | ->]; [reflexivity|].
  apply states_step_other. intros m -> ->. tauto.
Qed.

(** The three maps when the loop of [initializeAudio_during] ends. *)
Lemma loading_views l : NoDup (map name l) -> forall s,
  (forall n, consistent (view s n) /\ shaped (view s n)) ->
  (forall i, In i l -> view s (name i) = not_yet_loaded i) ->
  (forall n, consistent (view (fold_left turn l s) n) /\
             shaped (view (fold_left turn l s) n)) /\
  (forall i, In i l ->
     if loads env (url i)
     then Obj.get (players (fold_left turn l s)) (name i) <> None /\
          ((forall j, In j l ->
              ~ In (click_instrument (name i)) (during (name j))) ->
           Obj.get (instrumentStates (fold_left turn l s)) (name i) = Some true)
     else view (fold_left turn l s) (name i) =
          (None, Some (button_after_load_error (new_button i)), Some false)).
Proof.
  induction l as [|a r IH]; intros Hnd s Hcs Hfresh; cbn [fold_left].
  - split; [exact Hcs|intros i []].
  - cbn [map] in Hnd. inversion Hnd as [|? ? Ha Hr]; subst.
    assert (Hfresh1 : forall i, In i (a :: r) ->
              view (await_loaded v (during (name a)) s) (name i)
              = not_yet_loaded i).
    { intros i Hi. rewrite view_await_loaded_no_player; [now apply Hfresh|].
      specialize (Hfresh i Hi). apply view_components in Hfresh. tauto. }
    assert (Hcs1 : forall n, consistent (view (turn s a) n) /\
                             shaped (view (turn s a) n)).
    { unfold loading_turn. apply consistent_shaped_body; [apply Hfresh1; now left|].
      now apply consistent_shaped_await. }
    assert (Hne : forall i, In i r -> name i <> name a).
    { intros i Hi E. apply Ha. rewrite <- E. now apply in_map. }
    destruct (IH Hr (turn s a) Hcs1) as [I1 I2].
    { intros i Hi. unfold loading_turn.
      rewrite initializeAudio_body_ne by now apply Hne.
      apply Hfresh1. now right. }
    split; [exact I1|].
    intros i [<-|Hi].
    + pose proof (initializeAudio_body_eq v env a
                    (await_loaded v (during (name a)) s)) as V.
      rewrite (Hfresh1 a (or_introl eq_refl)) in V.
      unfold loaded_view, not_yet_loaded in V. fold (loading_turn v env during s a) in V.
      destruct (loads env (url a)).
      * apply view_components in V. destruct V as (Vp & _ & Vs). split.
        -- apply loading_has_player. rewrite Vp. discriminate.
        -- intros Hclick. rewrite loading_flag_unclicked; [exact Vs|exact Ha|].
           intros j Hj. apply Hclick. now right.
      * rewrite loading_no_player; [exact V|exact Ha|].
        apply view_components in V. tauto.
    + specialize (I2 i Hi). destruct (loads env (url i)); [|exact I2].
      destruct I2 as [J1 J2]. split; [exact J1|].
      intros Hclick. apply J2. intros j Hj. apply Hclick. now right.
Qed.
End Loading.

Lemma view_before_initializeAudio_notin v env n :
  ~ In n (map name (instruments v)) ->
  view (before_initializeAudio v env) n = (None, None, None).
Proof.
  intros Hn. unfold before_initializeAudio.
  rewrite view_createBeatIndicators. unfold createInstrumentButtons.
  now rewrite (forEach_view_notin _ createInstrumentButtons_body_ne).
Qed.

Lemma consistent_shaped_before v env n :
  consistent (view (before_initializeAudio v env) n) /\
  shaped (view (before_initializeAudio v env) n).
Proof.
  destruct (in_dec string_dec n (map name (instruments v))) as [Hn|Hn].
  - apply in_map_iff in Hn. destruct Hn as (i & <- & Hi).
    rewrite view_before_initializeAudio by assumption. split; exact I.
  - rewrite view_before_initializeAudio_notin by assumption. split; exact I.
Qed.

Lemma view_set_masterVolume x s n : view (set_masterVolume x s) n = view s n.
Proof. reflexivity. Qed.

(** The three maps when the audio has loaded, whatever was clicked
    meanwhile. *)
Lemma after_loading_views v env during :
  (forall n, consistent (view (after_loading_during v env during) n) /\
             shaped (view (after_loading_during v env during) n)) /\
  (forall i, In i (instruments v) ->
     if loads env (url i)
     then Obj.get (players (after_loading_during v env during)) (name i)
          <> None /\
          ((forall j, In j (instruments v) ->
              ~ In (click_instrument (name i)) (during (name j))) ->
           Obj.get (instrumentStates (after_loading_during v env during))
             (name i) = Some true)
     else view (after_loading_during v env during) (name i) =
          (None, Some (button_after_load_error (new_button i)), Some false)) /\
  (forall n, ~ In n (map name (instruments v)) ->
     view (after_loading_during v env during) n = (None, None, None)).
Proof.
  unfold after_loading_during.
  destruct (loading_views v env during (instruments v) (instruments_NoDup v)
              (set_masterVolume (Some (volumeSlider_value env))
                 (before_initializeAudio v env))) as [H1 H2].
  - intros n. rewrite view_set_masterVolume.
    apply (consistent_shaped_before v env n).
  - intros i Hi. rewrite view_set_masterVolume.
    now apply (view_before_initializeAudio v env i).
  - split; [exact H1|]. split; [exact H2|].
    pose proof (view_before_initializeAudio_notin v env) as V.
    intros n Hn. specialize (V n Hn).
    rewrite loading_no_player; [|assumption|].
    + now rewrite view_set_masterVolume.
    + rewrite <- (view_set_masterVolume (Some (volumeSlider_value env))) in V.
      apply view_components in V. tauto.
Qed.

Lemma view_onload_during_in v env during i :
  In i (instruments v) ->
  view (onload_during v env during) (name i) =
  onload_view i (view (after_loading_during v env during) (name i)).
Proof.
  intros Hi. unfold onload_during. rewrite view_updateBeatDisplay.
  rewrite (forEach_view_in _ _ onload_body_eq onload_body_ne _
             (instruments_NoDup v)) by assumption.
  reflexivity.
Qed.

Lemma view_onload_during_notin v env during n :
  ~ In n (map name (instruments v)) ->
  view (onload_during v env during) n = (None, None, None).
Proof.
  intros Hn. unfold onload_during. rewrite view_updateBeatDisplay.
  rewrite (forEach_view_notin _ onload_body_ne) by assumption.
  destruct (after_loading_views v env during) as (_ & _ & H).
  now apply H.
Qed.

Lemma classList_add_present c t :
  classList_contains c t = true -> classList_add c [t] = c.
Proof. intros H. unfold classList_add, classList_add1. simpl. now rewrite H. Qed.

Lemma has_active_button_when_not_loaded b :
  has_active (button_when_not_loaded b) = false.
Proof.
  unfold has_active, button_when_not_loaded.
  cbn [classList set_classList set_disabled].
  rewrite contains_add, contains_remove. now rewrite andb_false_r.
Qed.

(** What the final loop of [window.onload] makes of an instrument that has
    a player: enabled, audible and 'active' if its flag is set, disabled and
    silent if it is not. *)
Lemma onload_view_player i p b st :
  consistent (Some p, Some b, Some st) ->
  exists p' b',
    onload_view i (Some p, Some b, Some st) = (Some p', Some b', Some st) /\
    volume p' = volume_for st /\ has_active b' = st /\ disabled b' = negb st /\
    classList b' =
    (if st then classList b
     else classList_add (classList_remove (classList b) "active")
            ["opacity-50"; "cursor-not-allowed"]).
Proof.
  intros (Hd & Hvol & Hact). unfold onload_view. cbn [truthy option_map].
  destruct st; do 2 eexists; (split; [reflexivity|]).
  - split; [reflexivity|]. split; [apply has_active_add|].
    split; [exact Hd|]. cbn [classList set_classList].
    now apply classList_add_present.
  - split; [reflexivity|]. split; [apply has_active_button_when_not_loaded|].
    split; reflexivity.
Qed.

Lemma agreeing_shaped_onload_view i x :
  consistent x -> shaped x ->
  agreeing (onload_view i x) /\ shaped (onload_view i x).
Proof.
  destruct x as [[[p|] b] st]; intros Hc Hs.
  - destruct b as [b|]; [|contradiction]. destruct st as [st|]; [|contradiction].
    destruct (onload_view_player i p b st Hc) as (p' & b' & E & Hv & Ha & _ & Hcl).
    rewrite E. split; [now split|]. cbn [shaped] in *.
    destruct Hs as (base & Hbase & Hb). destruct st.
    + exists base. split; [assumption|]. now rewrite Hcl.
    + exists (classList b'). split; [exact Ha|]. now rewrite app_nil_r.
  - unfold onload_view. destruct b as [b|]; [|split; exact I].
    destruct (truthy st); split; exact I.
Qed.

Lemma agreeing_shaped_onload_during v env during n :
  agreeing (view (onload_during v env during) n) /\
  shaped (view (onload_during v env during) n).
Proof.
  destruct (after_loading_views v env during) as (Hcs & _ & _).
  destruct (in_dec string_dec n (map name (instruments v))) as [Hn|Hn].
  - apply in_map_iff in Hn. destruct Hn as (i & <- & Hi).
    rewrite view_onload_during_in by assumption.
    destruct (Hcs (name i)). now apply agreeing_shaped_onload_view.
  - rewrite view_onload_during_notin by assumption. split; exact I.
Qed.

Lemma agreeing_shaped_step v s e n :
  agreeing (view s n) /\ shaped (view s n) ->
  agreeing (view (step v s e) n) /\ shaped (view (step v s e) n).
Proof.
  intros [Ha Hs]. destruct e as [m| | |x| |];
    try (rewrite view_step_other; [now split|discriminate|discriminate]).
  - destruct (String.eqb_spec m n) as [->|Hne].
    + destruct (step_click_cases v n s) as [E|(p & b & Hp & Hb & Hd & E)];
        rewrite E; [now split|].
      unfold view in Ha, Hs. rewrite Hp, Hb in Ha, Hs.
      destruct (Obj.get (instrumentStates s) n) as [st|] eqn:Est;
        [|contradiction].
      split; [|now apply (shaped_toggled n p b s st)].
      pose proof (consistent_toggled n p b s Hd) as C.
      destruct (view (toggled n p b s) n) as [[[p'|] [b'|]] [st'|]];
        cbn [consistent agreeing] in *; tauto.
    + rewrite view_step_other; [now split| |discriminate].
      intros m' [= <-]. assumption.
  - cbn [step]. rewrite view_togglePlayPause. unfold view in Ha, Hs.
    destruct (Obj.get (players s) n) as [p|]; cbn [option_map];
      [|split; exact I].
    destruct (Obj.get (instrumentButtons s) n) as [b|]; [|contradiction].
    destruct (Obj.get (instrumentStates s) n) as [st|]; [|contradiction].
    cbn [agreeing shaped] in *.
    rewrite togglePlayPause_callback_volume. now split.
Qed.

(** In every state the page can be in after [window.onload], whatever was
    clicked while the audio loaded, flag, volume and 'active' agree and
    'active' comes last in the class list. *)
Lemma reachable_during_views v env s :
  reachable_during v env s ->
  forall n, agreeing (view s n) /\ shaped (view s n).
Proof.
  intros (during & es & ->). unfold run.
  apply (fold_left_inv (step v)
           (fun s => forall n, agreeing (view s n) /\ shaped (view s n))).
  - intros a e H n. apply agreeing_shaped_step, H.
  - apply agreeing_shaped_onload_during.
Qed.

(** ** Loaded instruments after [window.onload] *)

(** For an instrument whose audio loads, [window.onload] ends with the
    button enabled and 'active' and the player audible exactly when the
    mute flag is still true at the end of loading, which it is when the
    instrument's button was not clicked meanwhile; otherwise the final loop
    takes the muted instrument for a failed one and disables its button. *)
Lemma onload_during_loaded v env during i :
  In i (instruments v) -> loads env (url i) = true ->
  exists p b st,
    view (onload_during v env during) (name i) = (Some p, Some b, Some st) /\
    volume p = volume_for st /\ has_active b = st /\ disabled b = negb st /\
    ((forall j, In j (instruments v) ->
        ~ In (click_instrument (name i)) (during (name j))) ->
     st = true).
Proof.
  intros Hi Hl. destruct (after_loading_views v env during) as (Hcs & Hin & _).
  specialize (Hin i Hi). rewrite Hl in Hin. destruct Hin as [Hp Hflag].
  destruct (Hcs (name i)) as [Hc _].
  rewrite view_onload_during_in by assumption.
  unfold view in *.
  destruct (Obj.get (players (after_loading_during v env during)) (name i))
    as [p|]; [|congruence].
  destruct (Obj.get (instrumentButtons (after_loading_during v env during))
              (name i)) as [b|]; [|contradiction].
  destruct (Obj.get (instrumentStates (after_loading_during v env during))
              (name i)) as [st|]; [|contradiction].
  destruct (onload_view_player i p b st Hc) as (p' & b' & E & Hv & Ha & Hd & _).
  exists p', b', st. rewrite E. repeat split; try assumption.
  intros Hclick. specialize (Hflag Hclick). congruence.
Qed.

(** C9 fails on the code: the listeners of the instrument buttons are live
    while [initializeAudio] awaits the audio.  With every file loading, a
    click on the Clave button while Conga is still loading mutes Clave, and
    the final loop of [window.onload], which reads the mute flag to tell
    whether the audio loaded, then disables Clave's button: the instrument
    loaded, and ends muted, silent and disabled, in both variants. *)
Theorem onload_disables_instrument_clicked_while_loading :
  (In (clave_of MixerJs) (instruments MixerJs) /\
   loads env_all_loaded (url (clave_of MixerJs)) = true /\
   exists p b,
     view (onload_during MixerJs env_all_loaded clave_clicked_while_loading)
       "Clave" = (Some p, Some b, Some false) /\
     volume p = NegInfinity /\ disabled b = true /\ has_active b = false) /\
  (In (clave_of Part000) (instruments Part000) /\
   loads env_all_loaded (url (clave_of Part000)) = true /\
   exists p b,
     view (onload_during Part000 env_all_loaded clave_clicked_while_loading)
       "Clave" = (Some p, Some b, Some false) /\
     volume p = NegInfinity /\ disabled b = true /\ has_active b = false).
Proof.
  split; (split; [simpl; tauto|]); (split; [reflexivity|]);
    do 2 eexists; (split; [vm_compute; reflexivity|]);
    repeat split; reflexivity.
Qed.

(** ** [toggleInstrument] on every state the page can reach *)

(** X2: in every state the page can be in after [window.onload], whatever
    was clicked while the audio loaded, [toggleInstrument] does not throw:
    a name that has a player also has a button.  This is for the names the
    maps hold as own properties, that is every name but those inherited from
    [Object.prototype]; the click handlers pass instrument names only. *)
Theorem toggleInstrument_never_throws (v : Variant) (env : Env) (s : State)
    (n : string) :
  reachable_during v env s ->
  ~ In n Object_prototype_names ->
  toggleInstrument n s <> None.
Proof.
  intros Hr _. destruct (reachable_during_views v env s Hr n) as [Ha _].
  unfold view in Ha. unfold toggleInstrument.
  destruct (Obj.get (players s) n) as [p|]; [|discriminate].
  destruct (Obj.get (instrumentButtons s) n) as [b|]; [|contradiction].
  destruct (disabled b); [discriminate|].
  cbn [instrumentStates set_instrumentStates].
  rewrite ObjFacts.get_set_eq.
  destruct (truthy (Some (negb (truthy (Obj.get (instrumentStates s) n)))));
    discriminate.
Qed.

Lemma toggleInstrument_never_throws_witness :
  ~ In "Clave" Object_prototype_names /\
  toggleInstrument "Clave"
    (run MixerJs
       (onload_during MixerJs env_all_loaded clave_clicked_while_loading)
       [click_playPause; click_instrument "Conga"]) <> None.
Proof.
  assert (Hn : ~ In "Clave" Object_prototype_names)
    by (vm_compute; intuition discriminate).
  split; [exact Hn|].
  refine (toggleInstrument_never_throws MixerJs env_all_loaded _ "Clave" _ Hn).
  eexists. eexists. reflexivity.
Defined.

(** X3: in every state the page can be in after [window.onload], whatever
    was clicked while the audio loaded, two calls of [toggleInstrument] on
    the same name give back the whole page state unchanged: maps, class
    lists in their order, players, counters, trace.  This is for every name
    but those inherited from [Object.prototype]. *)
Theorem toggleInstrument_twice_identity (v : Variant) (env : Env) (s : State)
    (n : string) :
  reachable_during v env s ->
  ~ In n Object_prototype_names ->
  exists s1, toggleInstrument n s = Some s1 /\ toggleInstrument n s1 = Some s.
Proof.
  intros Hr _. destruct (reachable_during_views v env s Hr n) as [Ha Hs].
  unfold view in Ha, Hs.
  destruct (Obj.get (players s) n) as [p|] eqn:Hp.
  - destruct (Obj.get (instrumentButtons s) n) as [b|] eqn:Hb; [|contradiction].
    destruct (Obj.get (instrumentStates s) n) as [st|] eqn:Hst; [|contradiction].
    cbn [agreeing shaped] in Ha, Hs.
    destruct Ha as (Hvol & _). destruct Hs as (base & Hbase & Hcl).
    destruct (disabled b) eqn:Hd.
    + exists s. split; now apply (toggleInstrument_disabled n s p b).
    + exists (toggled n p b s). split; [now apply toggleInstrument_enabled|].
      pose proof (view_toggled_eq n p b s) as V. rewrite Hst in V.
      cbn [truthy] in V. apply view_components in V.
      destruct V as (Vp & Vb & _).
      rewrite (toggleInstrument_enabled n (toggled n p b s) _ _ Vp Vb Hd).
      f_equal. now apply (toggled_toggled n p b s st base).
  - exists s. split; now apply toggleInstrument_no_player.
Qed.

Lemma toggleInstrument_twice_identity_witness :
  ~ In "Conga" Object_prototype_names /\
  exists s1,
    toggleInstrument "Conga"
      (run MixerJs
         (onload_during MixerJs env_all_loaded clave_clicked_while_loading)
         [click_playPause]) = Some s1 /\
    toggleInstrument "Conga" s1 =
    Some (run MixerJs
            (onload_during MixerJs env_all_loaded clave_clicked_while_loading)
            [click_playPause]).
Proof.
  assert (Hn : ~ In "Conga" Object_prototype_names)
    by (vm_compute; intuition discriminate).
  split; [exact Hn|].
  refine (toggleInstrument_twice_identity MixerJs env_all_loaded _ "Conga" _ Hn).
  eexists. eexists. reflexivity.
Defined.

(** ** Buttons over a session *)

(** X17: no event, and no sequence of events, changes a button's id, its
    text, its [data-instrument], its [disabled] flag, or its class list apart
    from 'active': the other classes stay, in the same order.  This holds
    from any state of the page, so a button disabled by [initializeAudio] or
    by [window.onload] stays disabled, and an enabled one stays enabled, for
    the rest of the session. *)
Theorem buttons_fixed_but_active (v : Variant) (s : State) (es : list Event)
    (n : string) (b : Button) :
  Obj.get (instrumentButtons s) n = Some b ->
  exists b',
    Obj.get (instrumentButtons (run v s es)) n = Some b' /\
    id b' = id b /\
    textContent b' = textContent b /\
    dataset_instrument b' = dataset_instrument b /\
    disabled b' = disabled b /\
    classList_remove (classList b') "active"
    = classList_remove (classList b) "active".
Proof.
  intros Hb.
  assert (H : exists b',
            Obj.get (instrumentButtons (run v s es)) n = Some b' /\
            button_but_active b' = button_but_active b).
  { induction es as [|e es IH] using rev_ind.
    - exists b. now split.
    - destruct IH as (b1 & Hb1 & E1). rewrite run_snoc.
      destruct (button_step v _ e _ _ Hb1) as (b2 & Hb2 & E2).
      exists b2. split; [exact Hb2|congruence]. }
  destruct H as (b' & Hb' & E). exists b'. split; [exact Hb'|].
  unfold button_but_active in E. injection E as E1 E2 E3 E4 E5.
  now repeat split.
Qed.

Lemma buttons_fixed_but_active_witness :
  exists b',
    Obj.get (instrumentButtons
               (run MixerJs
                  (onload_during MixerJs env_all_loaded
                     clave_clicked_while_loading)
                  [click_instrument "Clave"; click_playPause;
                   click_instrument "Conga"])) "Clave" = Some b' /\
    id b' = id (button_when_not_loaded (new_button (clave_of MixerJs))) /\
    textContent b'
    = textContent (button_when_not_loaded (new_button (clave_of MixerJs))) /\
    dataset_instrument b'
    = dataset_instrument
        (button_when_not_loaded (new_button (clave_of MixerJs))) /\
    disabled b'
    = disabled (button_when_not_loaded (new_button (clave_of MixerJs))) /\
    classList_remove (classList b') "active"
    = classList_remove
        (classList (button_when_not_loaded (new_button (clave_of MixerJs))))
        "active".
Proof.
  apply (buttons_fixed_but_active MixerJs
           (onload_during MixerJs env_all_loaded clave_clicked_while_loading)).
  vm_compute. reflexivity.
Defined.

(** ** Players over every run *)

Lemma In_set {V : Type} (o : Obj.t V) n (x : V) k y :
  In (k, y) (Obj.set o n x) -> (k = n /\ y = x) \/ In (k, y) o.
Proof.
  induction o as [|[k0 v0] r IH]; cbn [Obj.set In].
  - intros [[= <- <-]|[]]. now left.
  - destruct (String.eqb_spec k0 n) as [->|Hne]; cbn [In].
    + intros [[= <- <-]|H]; [now left|right; now right].
    + intros [H|H]; [right; now left|].
      destruct (IH H) as [E|E]; [now left|right; now right].
Qed.

Lemma players_step_In v s e k p :
  In (k, p) (players (step v s e)) ->
  exists p0,
    In (k, p0) (players s) /\
    ((e <> click_playPause /\ but_volume p = but_volume p0) \/
     (e = click_playPause /\ p = fst (togglePlayPause_callback v s k p0))).
Proof.
  destruct e as [m| | |x| |].
  - destruct (step_click_cases v m s) as [E|(p1 & b & Hp1 & _ & _ & E)];
      rewrite E.
    + intros H. exists p. split; [assumption|left]. now split.
    + unfold toggled. cbn [players set_players set_instrumentButtons].
      intros H. apply In_set in H. destruct H as [[-> ->]|H].
      * exists p1. split; [now apply ObjFacts.get_Some_In|left]. now split.
      * exists p. split; [assumption|left]. now split.
  - cbn [step]. rewrite togglePlayPause_eq. cbn [players set_trace set_players].
    rewrite fst_forEach_values. intros H. apply in_map_iff in H.
    destruct H as ([k0 p0] & [= <- <-] & Hin). exists p0.
    split; [assumption|right]. now split.
  - intros H. exists p. split; [exact H|left]. now split.
  - intros H. exists p. split; [exact H|left]. now split.
  - cbn [step]. unfold on_mousedown.
    destruct (negb (context_running s)); intros H; exists p;
      (split; [exact H|left]); now split.
  - destruct v; intros H; exists p; (split; [exact H|left]); now split.
Qed.

Lemma players_body_In v env i s k p :
  In (k, p) (players (initializeAudio_body v env i s)) ->
  p = Tone_Player env (url i) \/ In (k, p) (players s).
Proof.
  unfold initializeAudio_body. destruct (loads env (url i)).
  - cbn [players emit set_instrumentStates set_players].
    intros H. apply In_set in H. destruct H as [[_ ->]|H]; auto.
  - destruct v; unfold showMessageBox;
      cbn [players instrumentButtons emit set_instrumentStates set_messageBox];
      destruct (Obj.get (instrumentButtons s) (name i)); auto.
Qed.

Lemma players_onload_body_In i s k p :
  In (k, p) (players (onload_body i s)) ->
  exists p0, In (k, p0) (players s) /\ but_volume p = but_volume p0.
Proof.
  assert (Hsame : In (k, p) (players s) ->
                  exists p0, In (k, p0) (players s) /\
                             but_volume p = but_volume p0)
    by (intros H; now exists p).
  assert (Hset : forall x p1,
            Obj.get (players s) (name i) = Some p1 ->
            In (k, p) (Obj.set (players s) (name i) (set_volume x p1)) ->
            exists p0, In (k, p0) (players s) /\
                       but_volume p = but_volume p0).
  { intros x p1 Hp1 H. apply In_set in H. destruct H as [[-> ->]|H]; auto.
    exists p1. split; [now apply ObjFacts.get_Some_In|reflexivity]. }
  unfold onload_body.
  destruct (Obj.get (instrumentButtons s) (name i)); [|exact Hsame].
  destruct (truthy (Obj.get (instrumentStates s) (name i)));
    cbn [players set_instrumentButtons];
    destruct (Obj.get (players s) (name i)) as [p1|] eqn:Hp1;
    cbn [players set_players set_instrumentButtons];
    eauto.
Qed.

Lemma transport_initializeAudio_body v env i s :
  transport (initializeAudio_body v env i s) = transport s.
Proof.
  change (transport (initializeAudio_body v env i s))
    with (fst (fst (fst (engine_side (initializeAudio_body v env i s))))).
  now rewrite engine_side_initializeAudio_body.
Qed.

Lemma transport_onload_body i s : transport (onload_body i s) = transport s.
Proof.
  change (transport (onload_body i s))
    with (fst (fst (fst (engine_side (onload_body i s))))).
  now rewrite engine_side_onload_body.
Qed.

Lemma players_before_initializeAudio v env :
  players (before_initializeAudio v env) = [].
Proof.
  unfold before_initializeAudio.
  change (players (createBeatIndicators ?s)) with (players s).
  unfold createInstrumentButtons.
  now apply (fold_left_inv _ (fun s' => players s' = [])).
Qed.

Lemma transport_before_initializeAudio v env :
  state (transport (before_initializeAudio v env)) = stopped.
Proof.
  unfold before_initializeAudio.
  change (transport (createBeatIndicators ?s)) with (transport s).
  unfold createInstrumentButtons.
  now apply (fold_left_inv _ (fun s' => state (transport s') = stopped)).
Qed.

(** X18: in every state the page can be in after [window.onload], whatever
    was clicked while the audio loaded, no player reports [isPlaying] unless
    the transport is started. *)
Theorem playing_only_while_started (v : Variant) (env : Env) (s : State)
    (k : string) (p : Player) :
  reachable_during v env s ->
  In (k, p) (players s) ->
  state (transport s) <> started ->
  isPlaying p = false.
Proof.
  intros Hr. revert k p.
  apply (reachable_during_inv
           (fun s => forall k p, In (k, p) (players s) ->
                       state (transport s) <> started -> isPlaying p = false)
           v env); try exact Hr; clear s Hr.
  - intros k p. now rewrite players_before_initializeAudio.
  - intros s x H. exact H.
  - intros s e H k p Hin. apply players_step_In in Hin.
    destruct Hin as (p0 & Hin0 & [[He E]|[-> ->]]).
    + rewrite transport_step.
      destruct e; try congruence; cbn [is_click_playPause];
        unfold but_volume in E; injection E as _ _ _ _ E; rewrite E;
        now apply (H k p0).
    + cbn [step]. rewrite togglePlayPause_state.
      unfold togglePlayPause_callback, pause_if_playing.
      destruct (state (transport s)); [|congruence|congruence].
      intros _. now destruct (isPlaying p0) eqn:E.
  - intros s i _ H k p Hin. rewrite transport_initializeAudio_body.
    apply players_body_In in Hin. destruct Hin as [->|Hin];
      [reflexivity|now apply (H k p)].
  - intros s H. exact H.
  - intros s i H k p Hin. rewrite transport_onload_body.
    apply players_onload_body_In in Hin. destruct Hin as (p0 & Hin0 & E).
    unfold but_volume in E. injection E as _ _ _ _ E. rewrite E.
    now apply (H k p0).
  - intros s H. exact H.
Qed.

Lemma playing_only_while_started_witness :
  In ("Clave", set_isPlaying false
                 (set_volume (dB 0)
                    (set_isPlaying true
                       (Tone_Player env_all_loaded "clave.wav"))))
    (players (run MixerJs
                (onload_during MixerJs env_all_loaded
                   play_clicked_while_loading)
                [click_playPause])) /\
  state (transport (run MixerJs
                      (onload_during MixerJs env_all_loaded
                         play_clicked_while_loading)
                      [click_playPause])) <> started /\
  isPlaying (set_isPlaying false
               (set_volume (dB 0)
                  (set_isPlaying true
                     (Tone_Player env_all_loaded "clave.wav")))) = false.
Proof.
  assert (Hin : In ("Clave",
                    set_isPlaying false
                      (set_volume (dB 0)
                         (set_isPlaying true
                            (Tone_Player env_all_loaded "clave.wav"))))
                  (players (run MixerJs
                              (onload_during MixerJs env_all_loaded
                                 play_clicked_while_loading)
                              [click_playPause])))
    by (vm_compute; left; reflexivity).
  assert (Hst : state (transport (run MixerJs
                                    (onload_during MixerJs env_all_loaded
                                       play_clicked_while_loading)
                                    [click_playPause])) <> started)
    by (vm_compute; discriminate).
  split; [exact Hin|]. split; [exact Hst|].
  refine (playing_only_while_started MixerJs env_all_loaded _ _ _ _ Hin Hst).
  eexists. eexists. reflexivity.
Defined.

(** ** part_000 and the name of the engine's players *)

Lemma part000_players_idle env s :
  ~ In (engine_player_name env) (map name (instruments Part000)) ->
  reachable_during Part000 env s ->
  Obj.get (players s) (engine_player_name env) = None /\
  Obj.get (instrumentStates s) (engine_player_name env) = None /\
  forall k p, In (k, p) (players s) ->
              player_name p = engine_player_name env /\ isPlaying p = false.
Proof.
  intros Hen Hr.
  apply (reachable_during_inv
           (fun s =>
              Obj.get (players s) (engine_player_name env) = None /\
              Obj.get (instrumentStates s) (engine_player_name env) = None /\
              forall k p, In (k, p) (players s) ->
                          player_name p = engine_player_name env /\
                          isPlaying p = false)
           Part000 env); try exact Hr; clear s Hr.
  - pose proof (view_before_initializeAudio_notin Part000 env _ Hen) as V.
    apply view_components in V. destruct V as (Vp & _ & Vs).
    split; [exact Vp|]. split; [exact Vs|].
    intros k p. now rewrite players_before_initializeAudio.
  - intros s x H. exact H.
  - intros s e (Hp & Hs & H).
    pose proof (view_step_no_player Part000 s e _ Hp) as V.
    split; [rewrite (players_of_view _ _ _ V); exact Hp|].
    split; [rewrite (states_of_view _ _ _ V); exact Hs|].
    intros k p Hin. apply players_step_In in Hin.
    destruct Hin as (p0 & Hin0 & [[He E]|[-> ->]]);
      destruct (H k p0 Hin0) as [I1 I2].
    + unfold but_volume in E. injection E as E1 _ _ _ E5.
      rewrite E1, E5. now split.
    + unfold togglePlayPause_callback, pause_if_playing,
        start_if_not_playing_and_active.
      destruct (state (transport s)); rewrite ?I1, I2, ?Hs; now split.
  - intros s i Hi (Hp & Hs & H).
    assert (Hne : engine_player_name env <> name i).
    { intros E. apply Hen. rewrite E. now apply in_map. }
    pose proof (initializeAudio_body_ne Part000 env i s _ Hne) as V.
    split; [rewrite (players_of_view _ _ _ V); exact Hp|].
    split; [rewrite (states_of_view _ _ _ V); exact Hs|].
    intros k p Hin. apply players_body_In in Hin.
    destruct Hin as [->|Hin]; [now split|now apply (H k p)].
  - intros s H. exact H.
  - intros s i (Hp & Hs & H).
    assert (Hin : forall k p, In (k, p) (players (onload_body i s)) ->
                    player_name p = engine_player_name env /\
                    isPlaying p = false).
    { intros k p Hin. apply players_onload_body_In in Hin.
      destruct Hin as (p0 & Hin0 & E). destruct (H k p0 Hin0) as [I1 I2].
      unfold but_volume in E. injection E as E1 _ _ _ E5.
      rewrite E1, E5. now split. }
    split; [|split; [|exact Hin]].
    + destruct (Obj.get (players (onload_body i s)) (engine_player_name env))
        as [p|] eqn:E; [|reflexivity].
      apply ObjFacts.get_Some_In, players_onload_body_In in E.
      destruct E as (p0 & Hin0 & _).
      now apply ObjFacts.In_get_is_Some in Hin0.
    + destruct (keys_onload_body i s) as (_ & _ & E). now rewrite E.
  - intros s H. exact H.
Qed.

(** X19: part_000 decides whether to start a player by looking up
    [instrumentStates] under the player's own [name] property, which the
    script never sets.  When the name the engine gives its players is
    neither the name of an instrument nor a name inherited from
    [Object.prototype], that lookup is always undefined and no player is
    ever started: in every state the page can be in after [window.onload],
    whatever was clicked while the audio loaded, every player reports
    [isPlaying] false and [togglePlayPause] makes no [start()] call. *)
Theorem part000_never_starts_unnamed_players (env : Env) (s : State) :
  ~ In (engine_player_name env) (map name (instruments Part000)) ->
  ~ In (engine_player_name env) Object_prototype_names ->
  reachable_during Part000 env s ->
  (forall k p, In (k, p) (players s) -> isPlaying p = false) /\
  (forall k, ~ In (player_start k) (calls_of_togglePlayPause Part000 s)).
Proof.
  intros Hen _ Hr.
  destruct (part000_players_idle env s Hen Hr) as (_ & Hst & Hidle).
  split; [intros k p Hp; exact (proj2 (Hidle k p Hp))|].
  intros k Hin.
  apply In_calls_of_togglePlayPause in Hin;
    [|apply player_start_not_in_prelude].
  destruct Hin as (k' & p & Hp & He).
  destruct (Hidle k' p Hp) as [I1 I2].
  unfold togglePlayPause_callback, pause_if_playing,
    start_if_not_playing_and_active in He.
  destruct (state (transport s)); rewrite ?I1, I2, ?Hst in He;
    cbn in He; tauto.
Qed.

Lemma part000_never_starts_unnamed_players_witness :
  ~ In (engine_player_name env_all_loaded) (map name (instruments Part000)) /\
  ~ In (engine_player_name env_all_loaded) Object_prototype_names /\
  In ("Clave", set_volume (dB 0) (Tone_Player env_all_loaded "clave.wav"))
    (players (run Part000
                (onload_during Part000 env_all_loaded
                   play_clicked_while_loading)
                [click_playPause; click_playPause])) /\
  isPlaying (set_volume (dB 0) (Tone_Player env_all_loaded "clave.wav")) = false.
Proof.
  assert (H1 : ~ In (engine_player_name env_all_loaded)
                 (map name (instruments Part000)))
    by (vm_compute; intuition discriminate).
  assert (H2 : ~ In (engine_player_name env_all_loaded) Object_prototype_names)
    by (vm_compute; intuition discriminate).
  assert (Hin : In ("Clave",
                    set_volume (dB 0) (Tone_Player env_all_loaded "clave.wav"))
                  (players (run Part000
                              (onload_during Part000 env_all_loaded
                                 play_clicked_while_loading)
                              [click_playPause; click_playPause])))
    by (vm_compute; left; reflexivity).
  split; [exact H1|]. split; [exact H2|]. split; [exact Hin|].
  refine (proj1 (part000_never_starts_unnamed_players env_all_loaded _ H1 H2 _)
            "Clave" _ Hin).
  eexists. eexists. reflexivity.
Defined.

(** ** The console over every run *)

Lemma console_errors_app t t' :
  console_errors (t ++ t') = console_errors t ++ console_errors t'.
Proof. apply filter_app. Qed.

Lemma console_errors_step v s e :
  console_errors (trace (step v s e)) = console_errors (trace s).
Proof.
  destruct e as [m| | |x| |].
  - destruct (step_click_cases v m s) as [E|(p & b & _ & _ & _ & E)];
      rewrite E; reflexivity.
  - cbn [step]. rewrite togglePlayPause_eq. cbn [trace set_trace].
    rewrite !console_errors_app. unfold console_errors at 3.
    rewrite filter_callback_calls by reflexivity.
    rewrite app_nil_r. unfold togglePlayPause_prelude.
    destruct (state (transport s)), v; try destruct (negb (context_running s));
      cbn [console_errors filter is_console_error app]; apply app_nil_r.
  - reflexivity.
  - reflexivity.
  - cbn [step]. unfold on_mousedown.
    destruct (negb (context_running s)); [|reflexivity].
    cbn [trace emit set_context_running]. rewrite !console_errors_app.
    destruct v; cbn [console_errors filter is_console_error]; now rewrite !app_nil_r.
  - now destruct v.
Qed.

Lemma console_errors_loading v env during l : forall s,
  console_errors (trace (fold_left (loading_turn v env during) l s)) =
  console_errors (trace s) ++ error_lines env l.
Proof.
  unfold error_lines.
  induction l as [|a r IH]; intros s; cbn [fold_left filter map].
  - now rewrite app_nil_r.
  - rewrite IH. unfold loading_turn.
    rewrite trace_initializeAudio_body, console_errors_app.
    assert (E : console_errors (trace (await_loaded v (during (name a)) s))
                = console_errors (trace s)).
    { apply (await_loaded_inv
               (fun s' => console_errors (trace s') = console_errors (trace s)));
        [|reflexivity].
      intros s0 e <-. apply console_errors_step. }
    rewrite E, <- app_assoc. f_equal.
    now destruct (loads env (url a)).
Qed.

Lemma console_lines_load_lines env l :
  console_lines (map (load_line env) l) = map (load_line env) l.
Proof.
  unfold console_lines. induction l as [|a r IH]; cbn [map filter];
    [reflexivity|].
  rewrite IH. unfold load_line at 1. now destruct (loads env (url a)).
Qed.

(** X14: over a whole session, and whatever is clicked while the audio
    loads, the [console.error] lines are exactly one per instrument whose
    audio failed to load, in list order: no handler writes one.  When
    nothing is handled during loading, the console lines [window.onload]
    writes are one per instrument, in list order: a 'Loaded' line for an
    instrument that loads, the error line for one that does not. *)
Theorem onload_console_lines (v : Variant) (env : Env) :
  (forall during es,
     console_errors (trace (run v (onload_during v env during) es))
     = error_lines env (instruments v)) /\
  console_lines (trace (onload v env)) = map (load_line env) (instruments v).
Proof.
  split.
  - intros during es.
    assert (H : console_errors (trace (onload_during v env during))
                = error_lines env (instruments v)).
    { unfold onload_during.
      change (trace (updateBeatDisplay 1 ?s)) with (trace s).
      match goal with
      | |- context [fold_left ?f (instruments v) ?a] =>
          assert (H : trace (fold_left f (instruments v) a) = trace a)
      end.
      { apply (fold_left_inv _ (fun s' => trace s' = trace _)); [|reflexivity].
        intros a i <-. apply trace_onload_body. }
      rewrite H. unfold initializeAudio_during.
      cbn [trace set_beatCounter set_transport set_masterVolume].
      rewrite console_errors_loading.
      change (trace (set_masterVolume ?x (createBeatIndicators ?s)))
        with (trace s).
      destruct (trace_createInstrumentButtons v (initial_state env)) as [C _].
      now rewrite C. }
    unfold run.
    apply (fold_left_inv (step v)
             (fun s => console_errors (trace s)
                       = error_lines env (instruments v))); [|exact H].
    intros a e <-. apply console_errors_step.
  - destruct (trace_messageBox_onload v env) as [Ht _]. rewrite Ht.
    apply console_lines_load_lines.
Qed.

Lemma onload_console_lines_witness :
  console_errors
    (trace (run Part000
              (onload_during Part000 env_piano_missing
                 play_clicked_while_loading)
              [mousedown; click_playPause]))
  = error_lines env_piano_missing (instruments Part000).
Proof.
  exact (proj1 (onload_console_lines Part000 env_piano_missing)
           play_clicked_while_loading [mousedown; click_playPause]).
Defined.
